(** * WaveRNN: the command-line entry points and the synthesis kernel

    The repository has two layers.  [src/wavernn/train.py] holds the [train]
    and [export] commands, which manage a model directory on disk.  The
    native kernel named by [setup.py] (kernel.cpp, gemv.cpp, ops.cpp,
    timer.cpp) performs the sample-by-sample synthesis.

    Part I embeds the Python commands over a small POSIX file-system model.
    Part II models the synthesis driver of the kernel.  Part III holds the
    theorems. *)

From Stdlib Require Import ZArith Ascii SpecFloat.
From stdpp Require Import base option list strings gmap.

Set Default Proof Using "Type".

(* ===================================================================== *)
(** * Part I.a  Paths and files, as [os.path], [os] and [shutil] see them *)
(* ===================================================================== *)

Module Posix.

(** [s.startswith("/")] *)
Definition starts_with_sep (s : string) : bool :=
  match s with
  | String "/"%char _ => true
  | _ => false
  end.

(** [s.endswith("/")] *)
Fixpoint ends_with_sep (s : string) : bool :=
  match s with
  | "" => false
  | String c "" => bool_decide (c = "/"%char)
  | String _ rest => ends_with_sep rest
  end.

(** [posixpath.join(a, b)]: an absolute [b] replaces [a]; otherwise the
    two are glued with exactly one separator, unless [a] is empty or
    already ends with one. *)
Definition join (a b : string) : string :=
  if starts_with_sep b then b
  else if bool_decide (a = "") || ends_with_sep a then a +:+ b
  else a +:+ "/" +:+ b.

(** [posixpath.join(a, b, c)] folds [join] from the left. *)
Definition join3 (a b c : string) : string := join (join a b) c.

(** Cutting a path at its separators.  [acc] is the component being
    read. *)
Fixpoint split_sep (acc s : string) : list string :=
  match s with
  | "" => [acc]
  | String c rest =>
      if bool_decide (c = "/"%char) then acc :: split_sep "" rest
      else split_sep (acc +:+ String c "") rest
  end.

(** A component that names something: neither empty (doubled or
    trailing separator) nor the current directory. *)
Definition proper_component (c : string) : Prop := c ≠ "" ∧ c ≠ ".".

#[global] Instance proper_component_dec c : Decision (proper_component c).
Proof. unfold proper_component. apply _. Defined.

(** The key under which a path is stored: its proper components.
    The working directory is taken to be the root of the tree.  The
    parent link [..] is not resolved but kept as a name, so a key is the
    resolved path only for a path without it. *)
Definition components (p : string) : list string :=
  filter proper_component (split_sep "" p).

(** A path that never climbs: no component is the parent link. *)
Definition no_parent_link (p : string) : Prop := ".." ∉ components p.

#[global] Instance no_parent_link_dec p : Decision (no_parent_link p).
Proof. unfold no_parent_link. apply _. Defined.

(** What a file holds.  A checkpoint or a YAML file is a byte string;
    [Blob] is what a serialiser of values of type [B] wrote. *)
Inductive payload (B : Type) : Type :=
  | Bytes (s : string)
  | Blob (b : B).
Arguments Bytes {B} s.
Arguments Blob {B} b.

Inductive node (B : Type) : Type :=
  | File (data : payload B)
  | Dir.
Arguments File {B} data.
Arguments Dir {B}.

Section Tree.
Context {B : Type}.

(** The file system: a finite map from normalised paths to nodes.  The
    root [[]] is not stored; it always exists and is a directory. *)
Local Abbreviation tree := (gmap (list string) (node B)).

(** A path that can only name a directory: its last raw component is
    empty (trailing separator) or the current directory. *)
Definition names_directory (p : string) : bool :=
  match last (split_sep "" p) with
  | Some c => bool_decide (¬ proper_component c)
  | None => true
  end.

(** What [stat] finds at [p].  The empty path names nothing; a path that
    can only name a directory does not find a file. *)
Definition lookup_path (fs : tree) (p : string) : option (node B) :=
  if bool_decide (p = "") then None
  else
    match components p with
    | [] => Some Dir
    | k =>
        match fs !! k with
        | Some (File d) => if names_directory p then None else Some (File d)
        | found => found
        end
    end.

(** [os.path.exists(p)] *)
Definition path_exists (fs : tree) (p : string) : bool :=
  bool_decide (is_Some (lookup_path fs p)).

Definition is_dir_key (fs : tree) (k : list string) : bool :=
  match fs !! k with
  | Some Dir => true
  | _ => false
  end.

(** Every stored node hangs below stored directories: each proper,
    non-empty prefix of its key is the key of a directory. *)
Definition well_formed (fs : tree) : Prop :=
  map_Forall (λ k _,
    k ≠ [] ∧
    Forall (λ n, is_dir_key fs (take n k) = true) (seq 1 (length k - 1))) fs.

#[global] Instance well_formed_dec fs : Decision (well_formed fs).
Proof. unfold well_formed. apply _. Defined.

(** The non-empty prefixes of a key, shortest first. *)
Definition ancestors_and_self (k : list string) : list (list string) :=
  (λ n, take n k) <$> seq 1 (length k).

(** [os.makedirs(p, exist_ok=True)]: creates every missing directory
    on the way to [p]; a file in the way raises. *)
Fixpoint mkdir_chain (ks : list (list string)) (fs : tree) : option tree :=
  match ks with
  | [] => Some fs
  | k :: rest =>
      match fs !! k with
      | None => mkdir_chain rest (<[k := Dir]> fs)
      | Some Dir => mkdir_chain rest fs
      | Some (File _) => None
      end
  end.

Definition makedirs (p : string) (fs : tree) : option tree :=
  if bool_decide (p = "") then None
  else mkdir_chain (ancestors_and_self (components p)) fs.

(** The directory that holds the last component of a key. *)
Definition parent (k : list string) : list string := removelast k.

(** Opening [p] for writing and storing [d]: the parent must be a
    directory and [p] must not name one. *)
Definition write_file (p : string) (d : payload B) (fs : tree) : option tree :=
  if names_directory p then None
  else
    match components p with
    | [] => None
    | k =>
        match parent k, fs !! parent k, fs !! k with
        | [], _, (None | Some (File _))
        | _, Some Dir, (None | Some (File _)) => Some (<[k := File d]> fs)
        | _, _, _ => None
        end
    end.

(** Opening [p] for reading. *)
Definition read_file (p : string) (fs : tree) : option (payload B) :=
  match lookup_path fs p with
  | Some (File d) => Some d
  | _ => None
  end.

(** [shutil.copyfile(src, dst)]: refuses to copy a file onto itself,
    then reads [src] and writes [dst].  Two paths name the same file
    when their keys are equal; for paths with a parent link the real
    test, which compares the files, can differ. *)
Definition copyfile (src dst : string) (fs : tree) : option tree :=
  if bool_decide (components src = components dst) then None
  else d ← read_file src fs; write_file dst d fs.

End Tree.

End Posix.

(* ===================================================================== *)
(** * Part I.b  [src/wavernn/train.py]                                     *)
(* ===================================================================== *)

Module Wavernn.
Import Posix.

(** Name of the config file to store. *)
Definition CONFIG_PATH : string := "config.yaml".

(** Where to store checkpoints. *)
Definition CHECKPOINTS_DIR : string := "checkpoints".

(** Where to write best checkpoint. *)
Definition BEST_CHECKPOINT : string := "best".

(** ** Values built by the libraries the commands call

    OmegaConf, the model class and TorchScript are kept symbolic: each
    constructor is one library call applied to what it was given. *)

(** [OmegaConf.structured(Config)], [merge_with(OmegaConf.load(f))] where
    [f] holds [yaml], and [merge_with_dotlist(overrides)]. *)
Inductive config_val : Type :=
  | Structured
  | MergeWith (base : config_val) (yaml : string)
  | MergeWithDotlist (base : config_val) (overrides : list string).

(** [Model(config)], [Model.load_from_checkpoint(p, config=c)] where [p]
    holds [ckpt], and a model after [initialize_input_stats] on the
    training loader of the dataset at [data]. *)
Inductive model_val : Type :=
  | NewModel (c : config_val)
  | LoadedModel (ckpt_path ckpt : string) (c : config_val)
  | WithInputStats (m : model_val) (data : string).

(** [torch.jit.script(ExportableWaveRNN(model))] *)
Inductive artifact : Type :=
  | Scripted (m : model_val).

Abbreviation tree := (gmap (list string) (node artifact)).

(** The calls a command makes on the outside world, in order. *)
Inductive event : Type :=
  | Makedirs (p : string)
  | Copyfile (src dst : string)
  | OmegaConfLoad (p : string)
  | LoadFromCheckpoint (p : string)
  | InitializeInputStats (data : string)
  | Fit (m : model_val) (data : string) (val_check_interval : Z)
        (dirpath filename save_dir : string) (ckpt_path : option string)
  | Save (p : string) (a : artifact).

(** How a command ends: it returns, it exits through [die_if], or an
    exception of a library call escapes. *)
Inductive outcome (A : Type) : Type :=
  | Returned (a : A)
  | Exited (msg : string)
  | Raised (exn : string).
Arguments Returned {A} a.
Arguments Exited {A} msg.
Arguments Raised {A} exn.

Record run (A : Type) : Type := Run {
  result : outcome A;
  disk : tree;
  calls : list event
}.
Arguments Run {A} _ _ _.
Arguments result {A} _.
Arguments disk {A} _.
Arguments calls {A} _.

(** A command reads and updates the disk and logs its calls. *)
Definition cmd (A : Type) : Type := tree → run A.

#[global] Instance cmd_ret : MRet cmd := λ A a fs, Run (Returned a) fs [].

#[global] Instance cmd_bind : MBind cmd := λ A B k c fs,
  let r := c fs in
  match result r with
  | Returned a =>
      let r' := k a (disk r) in
      Run (result r') (disk r') (calls r ++ calls r')
  | Exited msg => Run (Exited msg) (disk r) (calls r)
  | Raised exn => Run (Raised exn) (disk r) (calls r)
  end.

(** A library call that may raise: it is logged, then run on the disk. *)
Definition call {A} (e : event) (exn : string)
    (f : tree → option (A * tree)) : cmd A := λ fs,
  match f fs with
  | Some (a, fs') => Run (Returned a) fs' [e]
  | None => Run (Raised exn) fs [e]
  end.

(** Modelled from the spec: [die_if] lives in [wavernn/util.py], which is
    not among the sources.  Its call sites make it a fatal exit: when
    the condition holds the command stops with the message, otherwise
    nothing happens. *)
Definition die_if (condition : bool) (message : string) : cmd unit := λ fs,
  if condition then Run (Exited message) fs [] else Run (Returned ()) fs [].

Definition os_path_exists (p : string) : cmd bool := λ fs,
  Run (Returned (path_exists fs p)) fs [].

Definition os_makedirs (p : string) : cmd unit :=
  call (Makedirs p) "FileExistsError" (λ fs, fs' ← makedirs p fs; Some ((), fs')).

Definition shutil_copyfile (src dst : string) : cmd unit :=
  call (Copyfile src dst) "OSError" (λ fs, fs' ← copyfile src dst fs; Some ((), fs')).

(** [OmegaConf.load(p)]: the text of the file at [p].  The call raises
    when the file cannot be read.  A text that is not YAML, and a merge
    that OmegaConf refuses, raise in the library as well; the symbolic
    values do not look into the text, so those runs go on here. *)
Definition OmegaConf_load (p : string) : cmd string :=
  call (OmegaConfLoad p) "OSError"
    (λ fs, match read_file p fs with
           | Some (Bytes yaml) => Some (yaml, fs)
           | _ => None
           end).

(** [Model.load_from_checkpoint(p, config=c)]: raises when the file
    cannot be read.  A file that is not a checkpoint of this model raises
    in the library as well; here the bytes are kept as they are. *)
Definition load_from_checkpoint (p : string) (c : config_val) : cmd model_val :=
  call (LoadFromCheckpoint p) "OSError"
    (λ fs, match read_file p fs with
           | Some (Bytes ckpt) => Some (LoadedModel p ckpt c, fs)
           | _ => None
           end).

(** [data_module.setup(stage="fit")] followed by
    [model.initialize_input_stats(data_module.train_dataloader())]. *)
Definition initialize_input_stats (m : model_val) (data : string) : cmd model_val :=
  call (InitializeInputStats data) "OSError" (λ fs, Some (WithInputStats m data, fs)).

(** [pl.Trainer(...).fit(model, data_module, ckpt_path=resume_from)] with
    the checkpoint callback and the logger of the command.  What the
    trainer writes is its own business and is left out of the disk. *)
Definition trainer_fit (m : model_val) (data : string) (test_every : Z)
    (path : string) (resume_from : option string) : cmd unit :=
  call (Fit m data test_every (join path CHECKPOINTS_DIR) BEST_CHECKPOINT
            path resume_from)
       "RuntimeError" (λ fs, Some ((), fs)).

(** [exported.save(output)] *)
Definition script_save (output : string) (a : artifact) : cmd unit :=
  call (Save output a) "OSError"
    (λ fs, fs' ← write_file output (Blob a) fs; Some ((), fs')).

(** [train(config, path, data, test_every, initial_weights, overrides)].
    In the branch that copies, [config] is not [None]; Python would raise
    a [TypeError] on [copyfile(None, _)]. *)
Definition train (config : option string) (path data : string)
    (test_every : Z) (initial_weights : option string)
    (overrides : list string) : cmd unit :=
  path_present ← os_path_exists path;
  die_if (bool_decide (config = None) && negb path_present)
    ("Since --config is not passed, directory " +:+ path +:+ " must exist");;
  let saved_config_path := join path CONFIG_PATH in
  saved_present ← os_path_exists saved_config_path;
  config ←
    (if bool_decide (config = None) || saved_present then
       let config := saved_config_path in
       present ← os_path_exists config;
       die_if (negb present) ("Missing config file " +:+ config);;
       mret config
     else
       os_makedirs path;;
       match config with
       | Some given => shutil_copyfile given saved_config_path;; mret given
       | None => λ fs, Run (Raised "TypeError") fs []
       end);
  yaml ← OmegaConf_load config;
  let model_config := MergeWithDotlist (MergeWith Structured yaml) overrides in
  let last_path := join3 path CHECKPOINTS_DIR "last.ckpt" in
  fitted ←
    match initial_weights with
    | Some w =>
        model ← load_from_checkpoint w model_config;
        mret (model, @None string)
    | None =>
        last_present ← os_path_exists last_path;
        if last_present : bool then
          model ← load_from_checkpoint last_path model_config;
          mret (model, Some last_path)
        else
          model ← initialize_input_stats (NewModel model_config) data;
          mret (model, @None string)
    end;
  let '(model, resume_from) := fitted in
  trainer_fit model data test_every path resume_from.

(** [export(path, output)] *)
Definition export (path output : string) : cmd unit :=
  let config := join path CONFIG_PATH in
  config_present ← os_path_exists config;
  die_if (negb config_present) ("Missing config file " +:+ config);;
  let last_path := join3 path CHECKPOINTS_DIR "last.ckpt" in
  last_present ← os_path_exists last_path;
  die_if (negb last_present) ("Missing checkpoint " +:+ last_path);;
  yaml ← OmegaConf_load config;
  let model_config := MergeWith Structured yaml in
  model ← load_from_checkpoint last_path model_config;
  let exported := Scripted model in
  script_save output exported.

(** Where the checkpoint callback of [train] writes the best
    checkpoint: [dirpath/filename.ckpt]. *)
Definition best_path (path : string) : string :=
  join3 path CHECKPOINTS_DIR (BEST_CHECKPOINT +:+ ".ckpt").

(** The calls that change the disk. *)
Definition writes (e : event) : bool :=
  match e with
  | Makedirs _ | Copyfile _ _ | Save _ _ => true
  | _ => false
  end.

(** [holds c fs Q]: the run of [c] on [fs] ends in an outcome, a disk
    and a log that satisfy [Q]. *)
Definition holds {A} (c : cmd A) (fs : tree)
    (Q : outcome A → tree → list event → Prop) : Prop :=
  Q (result (c fs)) (disk (c fs)) (calls (c fs)).

(** A model directory that has been trained before, next to a new
    config file. *)
Definition trained_disk : tree :=
  <[ ["new.yaml"] := File (Bytes "lr: 1") ]>
    (<[ ["model"; "checkpoints"; "last.ckpt"] := File (Bytes "step=7") ]>
       (<[ ["model"; "checkpoints"; "best.ckpt"] := File (Bytes "step=5") ]>
          (<[ ["model"; "checkpoints"] := Dir ]>
             (<[ ["model"; "config.yaml"] := File (Bytes "lr: 2") ]>
                (<[ ["model"] := Dir ]> ∅))))).

(** ** The two halves of [train]

    [train] first settles which config file it uses and then builds the
    model and fits it.  The two blocks are named so that each can be
    stated on its own; [train] itself is unchanged. *)

(** Lines 74 to 80 of [train]: the saved config if there is one (or no
    --config was given), otherwise a copy of --config is stored first.
    Returns the rebinding of the local [config]. *)
Definition config_block (config : option string) (path : string) : cmd string :=
  let saved_config_path := join path CONFIG_PATH in
  saved_present ← os_path_exists saved_config_path;
  if bool_decide (config = None) || saved_present then
    let config := saved_config_path in
    present ← os_path_exists config;
    die_if (negb present) ("Missing config file " +:+ config);;
    mret config
  else
    os_makedirs path;;
    match config with
    | Some given => shutil_copyfile given saved_config_path;; mret given
    | None => λ fs, Run (Raised "TypeError") fs []
    end.

(** Lines 82 to 127 of [train]: the model config, the choice of the
    initial model and the fit. *)
Definition fit_block (config path data : string) (test_every : Z)
    (initial_weights : option string) (overrides : list string) : cmd unit :=
  yaml ← OmegaConf_load config;
  let model_config := MergeWithDotlist (MergeWith Structured yaml) overrides in
  let last_path := join3 path CHECKPOINTS_DIR "last.ckpt" in
  fitted ←
    match initial_weights with
    | Some w =>
        model ← load_from_checkpoint w model_config;
        mret (model, @None string)
    | None =>
        last_present ← os_path_exists last_path;
        if last_present : bool then
          model ← load_from_checkpoint last_path model_config;
          mret (model, Some last_path)
        else
          model ← initialize_input_stats (NewModel model_config) data;
          mret (model, @None string)
    end;
  let '(model, resume_from) := fitted in
  trainer_fit model data test_every path resume_from.

(** The config a model was built with. *)
Fixpoint config_of (m : model_val) : config_val :=
  match m with
  | NewModel c => c
  | LoadedModel _ _ c => c
  | WithInputStats m' _ => config_of m'
  end.

(** The exit messages of [train]. *)
Definition no_directory_message (path : string) : string :=
  "Since --config is not passed, directory " +:+ path +:+ " must exist".

Definition no_config_message (path : string) : string :=
  "Missing config file " +:+ join path CONFIG_PATH.

(** The trainer call among the calls. *)
Definition is_fit (e : event) : bool :=
  match e with
  | Fit _ _ _ _ _ _ _ => true
  | _ => false
  end.

(** A disk with a config file and no model directory yet. *)
Definition fresh_disk : tree :=
  <[ ["new.yaml"] := File (Bytes "lr: 1") ]> ∅.

End Wavernn.

(* ===================================================================== *)
(** * Part I.c  [setup.py]                                                 *)
(* ===================================================================== *)

Module Setup.

(** [torch.utils.cpp_extension.CppExtension(name, sources,
    extra_compile_args=...)] *)
Record CppExtension : Type := {
  name : string;
  sources : list string;
  extra_compile_args : list string
}.

(** The [ext_modules] argument of [setuptools.setup]. *)
Definition ext_modules : list CppExtension :=
  [ {| name := "wavernn_kernel";
       sources := [ "src/kernel/kernel.cpp"; "src/kernel/gemv.cpp";
                    "src/kernel/ops.cpp"; "src/kernel/timer.cpp" ];
       extra_compile_args := [ "-Ofast"; "-march=native"; "-fopenmp" ] |} ].

End Setup.

(* ===================================================================== *)
(** * Part II  The synthesis kernel                                        *)
(* ===================================================================== *)

(** [setup.py] builds the extension [wavernn_kernel] from kernel.cpp,
    gemv.cpp, ops.cpp and timer.cpp.  Those four files are not among the
    sources, so the driver below follows the written specification of the
    kernel: its data model (section 3), the contract of the fused
    sampling operations (4.2), the state machine of the driver (4.3), the
    cancellation rule (5) and the error taxonomy (7).  The Step Timer only
    observes the loop and never gates it (4.4); it is left out. *)

Module Kernel.

(** ** Single-precision numbers *)

Definition prec : Z := 24.
Definition emax : Z := 128.

Abbreviation f32 := spec_float.

Definition f32_zero : f32 := S754_zero false.
Definition f32_add : f32 → f32 → f32 := SFadd prec emax.
Definition f32_ltb : f32 → f32 → bool := SFltb.

Definition f32_is_nan (x : f32) : bool :=
  match x with
  | S754_nan => true
  | _ => false
  end.

Definition f32_is_negative (x : f32) : bool := f32_ltb x f32_zero.

(** ** Data model *)

(** Modelled from the spec: the fixed shape metadata of a Weight Set
    (section 6): hidden-state size, conditioning-vector width and the two
    alphabet sizes. *)
Record Shape : Type := {
  hidden_size : nat;
  cond_width : nat;
  coarse_symbols : nat;
  fine_symbols : nat
}.

(** Modelled from the spec: a Weight Set is a bundle of named matrices
    with its shape metadata; it is never mutated. *)
Record WeightSet : Type := {
  shape : Shape;
  tensors : gmap string (list (list f32))
}.

(** Modelled from the spec: the sampled value of one step, in its
    coarse/fine split. *)
Record Symbols : Type := {
  coarse : nat;
  fine : nat
}.

(** Modelled from the spec: sampling is either deterministic (argmax) or
    drawn from the supplied random source. *)
Inductive SamplingMode : Type :=
  | Argmax
  | Stochastic.

(** Modelled from the spec: the recurrent cell is a parameter of the
    kernel (section 9 leaves its gating equations open).  [coarse_phase]
    is every projection and gate of one step: from the state, the Sample
    History and the conditioning vector it gives the new state and the
    normalised coarse distribution.  [fine_phase] gives the fine
    distribution once the coarse symbol is known.  [amplitude]
    reconstructs the emitted sample from the two symbols. *)
Class Cell : Type := {
  shapes_ok : WeightSet → bool;
  coarse_phase :
    WeightSet → list f32 → option Symbols → list f32 → list f32 * list f32;
  fine_phase : WeightSet → list f32 → nat → list f32;
  amplitude : WeightSet → Symbols → Z
}.

(** Modelled from the spec: the random source is an explicit object
    supplied by the caller; a draw returns a number and the next state
    of the source. *)
Class RandomSource : Type := {
  Rng : Type;
  uniform : Rng → f32 * Rng
}.

(** ** Fused sampling operations *)

(** Modelled from the spec: a distribution is corrupt when normalisation
    left a NaN or a negative probability in it (4.2, 7). *)
Definition corrupt_entry (p : f32) : bool := f32_is_nan p || f32_is_negative p.

Definition proper_distribution (dist : list f32) : bool :=
  forallb (λ p, negb (corrupt_entry p)) dist.

(** Modelled from the spec: argmax sampling picks the first entry that no
    later entry exceeds. *)
Fixpoint argmax_from (best_index : nat) (best : f32) (i : nat)
    (dist : list f32) : nat :=
  match dist with
  | [] => best_index
  | p :: rest =>
      if f32_ltb best p then argmax_from i p (S i) rest
      else argmax_from best_index best (S i) rest
  end.

Definition argmax (dist : list f32) : nat :=
  match dist with
  | [] => 0
  | p :: rest => argmax_from 0 p 1 rest
  end.

(** Modelled from the spec: stochastic sampling inverts the cumulative
    distribution at a uniform draw [u]. *)
Fixpoint inverse_cdf (u acc : f32) (i : nat) (dist : list f32) : nat :=
  match dist with
  | [] => i
  | [_] => i
  | p :: rest =>
      let acc' := f32_add acc p in
      if f32_ltb u acc' then i else inverse_cdf u acc' (S i) rest
  end.

(** Modelled from the spec: what can stop a step (section 7). *)
Inductive Fault : Type :=
  | NumericCorruption.

(** Modelled from the spec: what is refused before synthesis starts. *)
Inductive ConfigError : Type :=
  | ShapeMismatch
  | WrongPhase.

Section Driver.
Context `{Cell} `{RandomSource}.

(** Modelled from the spec: one draw from a categorical distribution
    (4.2).  Argmax mode leaves the random source untouched. *)
Definition draw (mode : SamplingMode) (dist : list f32) (r : Rng) : nat * Rng :=
  match mode with
  | Argmax => (argmax dist, r)
  | Stochastic =>
      let '(u, r') := uniform r in
      (inverse_cdf u f32_zero 0 dist, r')
  end.

(** Modelled from the spec: the single "evaluate cell step" operation
    of section 9 with the two-phase sampling protocol: the coarse
    symbol is drawn first and fed to the fine phase.  A corrupt
    distribution is a fault and nothing is returned. *)
Definition cell_step (mode : SamplingMode) (W : WeightSet)
    (state : list f32) (history : option Symbols) (c : list f32)
    (r : Rng) : Fault + (list f32 * Symbols * Rng) :=
  let '(state', coarse_dist) := coarse_phase W state history c in
  if proper_distribution coarse_dist then
    let '(ci, r1) := draw mode coarse_dist r in
    let fine_dist := fine_phase W state' ci in
    if proper_distribution fine_dist then
      let '(fi, r2) := draw mode fine_dist r1 in
      inr (state', {| coarse := ci; fine := fi |}, r2)
    else inl NumericCorruption
  else inl NumericCorruption.

(** Modelled from the spec: what a session owns (section 3): the
    shared read-only Weight Set, the Recurrent State, the Sample
    History, the unread part of the Conditioning Sequence and the
    Output Waveform, oldest sample first. *)
Record Session : Type := {
  weights : WeightSet;
  state : list f32;
  history : option Symbols;
  pending : list (list f32);
  waveform : list Z;
  mode : SamplingMode;
  rng : Rng
}.

(** Modelled from the spec: the states of the Synthesis Driver
    (4.3). *)
Inductive Driver : Type :=
  | UNINITIALIZED
  | READY (W : WeightSet) (zeroed : list f32)
  | SYNTHESIZING (s : Session)
  | COMPLETE (s : Session)
  | ABORTED (s : Session).

(** Modelled from the spec: UNINITIALIZED to READY: the shapes are
    validated once, the weights are kept and the state is zeroed. *)
Definition load (W : WeightSet) (d : Driver) : ConfigError + Driver :=
  match d with
  | UNINITIALIZED =>
      if shapes_ok W
      then inr (READY W (replicate (hidden_size (shape W)) f32_zero))
      else inl ShapeMismatch
  | _ => inl WrongPhase
  end.

(** Modelled from the spec: READY to SYNTHESIZING: the whole
    Conditioning Sequence is handed over; a vector of the wrong width
    is a configuration error. *)
Definition start (m : SamplingMode) (r : Rng) (cs : list (list f32))
    (d : Driver) : ConfigError + Driver :=
  match d with
  | READY W zeroed =>
      if forallb (λ c, Nat.eqb (length c) (cond_width (shape W))) cs
      then inr (SYNTHESIZING {| weights := W; state := zeroed;
                                history := None; pending := cs;
                                waveform := []; mode := m; rng := r |})
      else inl ShapeMismatch
  | _ => inl WrongPhase
  end.

(** Modelled from the spec: one iteration of the loop (4.3, 5).  With
    no input left the session is COMPLETE.  Otherwise the cancellation
    flag is checked, then the step is evaluated, and only a step that
    succeeded is committed: new state, new history, one more sample. *)
Definition iterate (cancelled : bool) (d : Driver) : Driver :=
  match d with
  | SYNTHESIZING s =>
      match pending s with
      | [] => COMPLETE s
      | c :: rest =>
          if cancelled then ABORTED s
          else
            match cell_step (mode s) (weights s) (state s) (history s) c (rng s) with
            | inl _ => ABORTED s
            | inr (state', symbols, r') =>
                SYNTHESIZING {| weights := weights s; state := state';
                                history := Some symbols; pending := rest;
                                waveform := waveform s ++ [amplitude (weights s) symbols];
                                mode := mode s; rng := r' |}
            end
      end
  | _ => d
  end.

(** The Output Waveform as a caller reads it, in any state. *)
Definition output (d : Driver) : list Z :=
  match d with
  | SYNTHESIZING s | COMPLETE s | ABORTED s => waveform s
  | _ => []
  end.

Definition unread (d : Driver) : nat :=
  match d with
  | SYNTHESIZING s => length (pending s)
  | _ => 0
  end.

(** Modelled from the spec: the loop.  [cancel k] is the answer of the
    cancellation check made when [k] samples have been emitted. *)
Fixpoint run (fuel : nat) (cancel : nat → bool) (d : Driver) : Driver :=
  match fuel, d with
  | S fuel', SYNTHESIZING s =>
      run fuel' cancel (iterate (cancel (length (waveform s))) d)
  | _, _ => d
  end.

(** One pass over the input takes one iteration per vector and one
    more to see that none is left. *)
Definition synthesize (cancel : nat → bool) (d : Driver) : Driver :=
  run (S (unread d)) cancel d.

(** Modelled from the spec: the two transitions that precede the loop. *)
Definition begin (W : WeightSet) (cs : list (list f32))
    (m : SamplingMode) (r : Rng) : ConfigError + Driver :=
  match load W UNINITIALIZED with
  | inl e => inl e
  | inr ready => start m r cs ready
  end.

(** Modelled from the spec: one session, from UNINITIALIZED to its
    end. *)
Definition session (W : WeightSet) (cs : list (list f32))
    (m : SamplingMode) (r : Rng) (cancel : nat → bool)
    : ConfigError + Driver :=
  match begin W cs m r with
  | inl e => inl e
  | inr d => inr (synthesize cancel d)
  end.

(** The Output Waveform of a session, or why it never started. *)
Definition session_output (W : WeightSet) (cs : list (list f32))
    (m : SamplingMode) (r : Rng) (cancel : nat → bool)
    : ConfigError + list Z :=
  match session W cs m r cancel with
  | inl e => inl e
  | inr d => inr (output d)
  end.

(** A session that nobody cancels. *)
Definition never : nat → bool := λ _, false.


(** A distribution with a NaN or a negative entry somewhere. *)
Definition has_corrupt_entry (dist : list f32) : Prop :=
  ∃ p, p ∈ dist ∧ (p = S754_nan ∨ f32_ltb p f32_zero = true).

(** The step that would consume [c] in session [s] normalises to a
    corrupt distribution, in its coarse or in its fine phase. *)
Definition corrupted_at (s : Session) (c : list f32) : Prop :=
  let '(state', coarse_dist) :=
    coarse_phase (weights s) (state s) (history s) c in
  has_corrupt_entry coarse_dist ∨
  has_corrupt_entry
    (fine_phase (weights s) state' (draw (mode s) coarse_dist (rng s)).1).

End Driver.

(** ** A small cell to run the driver on

    The two distributions of this cell are rows stored in the Weight Set,
    and its state never moves.  With flat rows it is the degenerate cell
    of zero weights: every symbol is equally likely. *)

Definition row (W : WeightSet) (name : string) : list f32 :=
  match tensors W !! name with
  | Some (r :: _) => r
  | _ => []
  end.

Definition table_cell : Cell := {|
  shapes_ok W :=
    Nat.eqb (length (row W "coarse")) (coarse_symbols (shape W))
    && Nat.eqb (length (row W "fine")) (fine_symbols (shape W));
  coarse_phase W st _ _ := (st, row W "coarse");
  fine_phase W _ _ := row W "fine";
  amplitude W symbols :=
    Z.of_nat (coarse symbols * fine_symbols (shape W) + fine symbols)
|}.

(** A random source that reads its draws from a tape. *)
Definition tape : RandomSource := {|
  Rng := list f32;
  uniform r := (hd f32_zero r, tl r)
|}.

(** 0.25 in single precision. *)
Definition quarter : f32 := S754_finite false 8388608 (-25).

Definition small_shape : Shape :=
  {| hidden_size := 8; cond_width := 4; coarse_symbols := 4; fine_symbols := 4 |}.

Definition flat : list f32 := [quarter; quarter; quarter; quarter].

Definition flat_weights : WeightSet :=
  {| shape := small_shape;
     tensors := <["coarse" := [flat]]> (<["fine" := [flat]]> ∅) |}.

(** The same Weight Set with one coarse probability turned into NaN. *)
Definition broken_weights : WeightSet :=
  {| shape := small_shape;
     tensors := <["coarse" := [[quarter; S754_nan; quarter; quarter]]]>
                  (<["fine" := [flat]]> ∅) |}.

(** The zero conditioning vector of that shape, and [n] such vectors in
    a row. *)
Definition zero_vector : list f32 := replicate 4 f32_zero.

Definition silence (n : nat) : list (list f32) := replicate n zero_vector.

End Kernel.

(* ===================================================================== *)
(** * Part III.a  Facts about paths                                        *)
(* ===================================================================== *)

Module PosixFacts.
Import Posix.

Lemma append_nil_l (b : string) : "" +:+ b = b.
Proof. reflexivity. Qed.

Lemma append_cons (c : ascii) (a b : string) :
  String c a +:+ b = String c (a +:+ b).
Proof. reflexivity. Qed.

(** Splitting distributes over a separator in the middle. *)
Lemma split_sep_glue (a b acc : string) :
  split_sep acc (a +:+ String "/" b) = split_sep acc a ++ split_sep "" b.
Proof.
  revert acc. induction a as [|c a IH]; intros acc.
  - rewrite append_nil_l. reflexivity.
  - rewrite append_cons. cbn [split_sep].
    case_bool_decide; rewrite IH; reflexivity.
Qed.

Lemma components_glue (a b : string) :
  components (a +:+ String "/" b) = components a ++ components b.
Proof. unfold components. by rewrite split_sep_glue, filter_app. Qed.

(** A path that ends with a separator is some path followed by it. *)
Lemma ends_with_sep_inv (a : string) :
  ends_with_sep a = true → ∃ a', a = a' +:+ "/".
Proof.
  induction a as [|c a IH]; [done|].
  destruct a as [|c' a].
  - cbn. intros Hc%bool_decide_eq_true. subst c. by exists "".
  - intros Ha. destruct (IH Ha) as [a' ->].
    exists (String c a'). by rewrite append_cons.
Qed.

Lemma append_assoc (a b c : string) : (a +:+ b) +:+ c = a +:+ (b +:+ c).
Proof. induction a as [|x a IH]; [done|]. by rewrite !append_cons, IH. Qed.

(** Joining a relative name appends its components. *)
Lemma components_join (a b : string) :
  starts_with_sep b = false →
  components (join a b) = components a ++ components b.
Proof.
  intros Hb. unfold join. rewrite Hb.
  case_bool_decide as Ha; cbn [orb].
  - subst a. by rewrite append_nil_l.
  - destruct (ends_with_sep a) eqn:Hsep.
    + destruct (ends_with_sep_inv a Hsep) as [a' ->].
      rewrite append_assoc. change ("/" +:+ b) with (String "/" b).
      rewrite components_glue.
      change (a' +:+ "/") with (a' +:+ String "/" "").
      rewrite components_glue. change (components "") with (@nil string).
      by rewrite app_nil_r.
    + change ("/" +:+ b) with (String "/" b). apply components_glue.
Qed.

Lemma components_join3 (a b c : string) :
  starts_with_sep b = false → starts_with_sep c = false →
  components (join3 a b c) = components a ++ components b ++ components c.
Proof.
  intros Hb Hc. unfold join3.
  by rewrite components_join, components_join, <- app_assoc.
Qed.

Section Tree.
Context {B : Type}.
Implicit Types fs : gmap (list string) (node B).

(** In a well-formed tree, what exists below a directory path makes
    that path exist. *)
Lemma exists_below fs (a b : string) :
  well_formed fs → a ≠ "" →
  starts_with_sep b = false → components b ≠ [] →
  path_exists fs (join a b) = true → path_exists fs a = true.
Proof.
  intros Hwf Ha Hb Hkb Hex. unfold path_exists in *.
  apply bool_decide_eq_true. apply bool_decide_eq_true in Hex.
  unfold lookup_path in *. rewrite (bool_decide_eq_false_2 (a = "")) by done.
  destruct (bool_decide (join a b = "")); [by destruct Hex|].
  rewrite components_join in Hex by done.
  destruct (components a) as [|x ka] eqn:Hka; [by eexists|].
  destruct (components b) as [|y kb]; [done|].
  change ((x :: ka) ++ y :: kb) with (x :: ka ++ y :: kb) in Hex.
  cbv iota in Hex.
  destruct (fs !! (x :: ka ++ y :: kb)) as [n|] eqn:Hn;
    [|by destruct Hex as [? [=]]].
  destruct (Hwf _ _ Hn) as [_ Hpre].
  rewrite Forall_forall in Hpre.
  specialize (Hpre (length (x :: ka))).
  replace (take (length (x :: ka)) (x :: ka ++ y :: kb)) with (x :: ka)
    in Hpre by (symmetry; apply (take_app_length (x :: ka))).
  unfold is_dir_key in Hpre.
  destruct (fs !! (x :: ka)) as [[]|]; [| by eexists |].
  all: exfalso; enough (false = true) by done; apply Hpre;
    apply elem_of_seq; cbn; rewrite length_app; cbn; lia.
Qed.

End Tree.

End PosixFacts.

(* ===================================================================== *)
(** * Part III.b  The [train] and [export] commands                        *)
(* ===================================================================== *)

Module TrainFacts.
Import Posix Wavernn PosixFacts.

Lemma holds_bind {A B} (c : cmd A) (k : A → cmd B) (fs : tree) Q :
  holds c fs (λ o fs' evs,
    match o with
    | Returned a => holds (k a) fs' (λ o' fs'' evs', Q o' fs'' (evs ++ evs'))
    | Exited msg => Q (Exited msg) fs' evs
    | Raised exn => Q (Raised exn) fs' evs
    end) →
  holds (c ≫= k) fs Q.
Proof.
  unfold holds, mbind, cmd_bind.
  destruct (c fs) as [[a|msg|exn] fs' evs]; cbn; done.
Qed.

Lemma holds_ret {A} (a : A) (fs : tree) Q : Q (Returned a) fs [] → holds (mret a) fs Q.
Proof. done. Qed.

Lemma holds_exists (p : string) (fs : tree) Q :
  Q (Returned (path_exists fs p)) fs [] → holds (os_path_exists p) fs Q.
Proof. done. Qed.

Lemma holds_die_if (b : bool) (msg : string) (fs : tree) Q :
  (if b then Q (Exited msg) fs [] else Q (Returned ()) fs []) →
  holds (die_if b msg) fs Q.
Proof. unfold holds, die_if. by destruct b. Qed.

Lemma holds_call {A} (e : event) (exn : string)
    (f : tree → option (A * tree)) (fs : tree) Q :
  match f fs with
  | Some (a, fs') => Q (Returned a) fs' [e]
  | None => Q (Raised exn) fs [e]
  end →
  holds (call e exn f) fs Q.
Proof. unfold holds, call. by destruct (f fs) as [[a fs']|]. Qed.

Lemma holds_load (p : string) (fs : tree) Q :
  match read_file p fs with
  | Some (Bytes yaml) => Q (Returned yaml) fs [OmegaConfLoad p]
  | _ => Q (Raised "OSError") fs [OmegaConfLoad p]
  end →
  holds (OmegaConf_load p) fs Q.
Proof.
  intros HQ. apply holds_call. by destruct (read_file p fs) as [[]|].
Qed.

Lemma holds_checkpoint (p : string) (c : config_val) (fs : tree) Q :
  match read_file p fs with
  | Some (Bytes ckpt) =>
      Q (Returned (LoadedModel p ckpt c)) fs [LoadFromCheckpoint p]
  | _ => Q (Raised "OSError") fs [LoadFromCheckpoint p]
  end →
  holds (load_from_checkpoint p c) fs Q.
Proof.
  intros HQ. apply holds_call. by destruct (read_file p fs) as [[]|].
Qed.

Lemma holds_input_stats (m : model_val) (data : string) (fs : tree) Q :
  Q (Returned (WithInputStats m data)) fs [InitializeInputStats data] →
  holds (initialize_input_stats m data) fs Q.
Proof. intros HQ. by apply holds_call. Qed.

Lemma holds_fit (m : model_val) (data : string) (te : Z) (path : string)
    (resume : option string) (fs : tree) Q :
  Q (Returned ()) fs
    [Fit m data te (join path CHECKPOINTS_DIR) BEST_CHECKPOINT path resume] →
  holds (trainer_fit m data te path resume) fs Q.
Proof. intros HQ. by apply holds_call. Qed.

Lemma holds_makedirs (p : string) (fs : tree) Q :
  match makedirs p fs with
  | Some fs' => Q (Returned ()) fs' [Makedirs p]
  | None => Q (Raised "FileExistsError") fs [Makedirs p]
  end →
  holds (os_makedirs p) fs Q.
Proof. intros HQ. apply holds_call. cbn. by destruct (makedirs p fs). Qed.

Lemma holds_copyfile (src dst : string) (fs : tree) Q :
  match copyfile src dst fs with
  | Some fs' => Q (Returned ()) fs' [Copyfile src dst]
  | None => Q (Raised "OSError") fs [Copyfile src dst]
  end →
  holds (shutil_copyfile src dst) fs Q.
Proof. intros HQ. apply holds_call. cbn. by destruct (copyfile src dst fs). Qed.

Lemma holds_save (p : string) (a : artifact) (fs : tree) Q :
  match write_file p (Blob a) fs with
  | Some fs' => Q (Returned ()) fs' [Save p a]
  | None => Q (Raised "OSError") fs [Save p a]
  end →
  holds (script_save p a) fs Q.
Proof.
  intros HQ. apply holds_call. cbn. by destruct (write_file p (Blob a) fs).
Qed.

Lemma holds_elim {A} (c : cmd A) (fs : tree) Q :
  holds c fs Q → Q (result (c fs)) (disk (c fs)) (calls (c fs)).
Proof. done. Qed.

#[global] Opaque holds.

(** One rule at a time, outermost command first. *)
Ltac wp_step :=
  first
    [ apply holds_bind
    | apply holds_ret
    | apply holds_exists
    | apply holds_die_if
    | apply holds_load
    | apply holds_checkpoint
    | apply holds_input_stats
    | apply holds_fit
    | apply holds_makedirs
    | apply holds_copyfile
    | apply holds_save ];
  lazy beta iota.

Ltac wp := repeat wp_step.

(** Membership in a literal log, one entry at a time. *)
Ltac in_log H :=
  repeat (apply elem_of_cons in H as [H|H];
          [ first [ discriminate H | injection H as ?; subst | subst ] | ]);
  try (apply elem_of_nil in H; destruct H).

Ltac close_log :=
  cbn [app head];
  split;
  [ let H1 := fresh in
    let H2 := fresh in
    intros H1 H2;
    first
      [ discriminate H1
      | discriminate H2
      | split; [reflexivity | split; [reflexivity |
          let e := fresh "e" in let Hin := fresh "Hin" in
          intros e Hin; in_log Hin;
          (split; [reflexivity |
             let Hp := fresh "Hp" in
             intros ? Hp; first [discriminate Hp | by injection Hp as <-]])]] ]
  | let Hin := fresh "Hin" in
    intros ? ? Hin; in_log Hin; try done ].

(** What [train] does once the local [config] names the file to load. *)
Ltac train_tail fs :=
  wp;
  match goal with
  | |- context [read_file ?p fs] =>
      destruct (read_file p fs) as [[?|?]|]; [|close_log..]
  end;
  match goal with
  | |- context [match ?iw with Some _ => _ | None => _ end] => destruct iw
  end;
  [ wp;
    match goal with
    | |- context [read_file ?p fs] =>
        destruct (read_file p fs) as [[?|?]|]; [|close_log..]
    end;
    wp; close_log
  | wp;
    match goal with
    | |- context [path_exists fs ?p] => destruct (path_exists fs p)
    end;
    [ wp;
      match goal with
      | |- context [read_file ?p fs] =>
          destruct (read_file p fs) as [[?|?]|]; [|close_log..]
      end;
      wp; close_log
    | wp; close_log ] ].

(** The last and the best checkpoint are different files. *)
Lemma last_is_not_best (path : string) :
  components (join3 path CHECKPOINTS_DIR "last.ckpt")
  ≠ components (best_path path).
Proof.
  unfold best_path. rewrite !components_join3 by done.
  intros Heq%app_inv_head. vm_compute in Heq. discriminate Heq.
Qed.


(** On a well-formed disk, a saved config file sits in a directory that
    exists, unless the directory was given as the empty path. *)
Lemma saved_config_inside_directory (fs : tree) (path : string) :
  well_formed fs → path ≠ "" →
  path_exists fs (join path CONFIG_PATH) = true → path_exists fs path = true.
Proof. intros Hwf Hne. by apply exists_below. Qed.

(** C9.  On a model directory that already holds a saved config.yaml,
    [train] loads that saved file and changes nothing on disk, whatever
    was passed as --config; the --config file is copied into the model
    directory only when no saved config.yaml exists there. *)
Theorem train_keeps_saved_config
    (config : option string) (path data : string) (test_every : Z)
    (initial_weights : option string) (overrides : list string) (fs : tree) :
  let saved := join path CONFIG_PATH in
  let r := train config path data test_every initial_weights overrides fs in
  (path_exists fs path = true → path_exists fs saved = true →
     disk r = fs ∧
     head (calls r) = Some (OmegaConfLoad saved) ∧
     ∀ e, e ∈ calls r →
       writes e = false ∧ ∀ p, e = OmegaConfLoad p → p = saved)
  ∧ (∀ src dst, Copyfile src dst ∈ calls r →
       path_exists fs saved = false ∧ config = Some src ∧ dst = saved).
Proof.
  intros saved r. subst r.
  apply (holds_elim (train config path data test_every initial_weights overrides) fs
    (λ _ fs' evs,
       (path_exists fs path = true → path_exists fs saved = true →
          fs' = fs ∧ head evs = Some (OmegaConfLoad saved) ∧
          ∀ e, e ∈ evs → writes e = false ∧ ∀ p, e = OmegaConfLoad p → p = saved)
       ∧ (∀ src dst, Copyfile src dst ∈ evs →
            path_exists fs saved = false ∧ config = Some src ∧ dst = saved))).
  unfold train. cbv zeta. fold saved.
  destruct (path_exists fs path) eqn:Hpath, (path_exists fs saved) eqn:Hsaved.
  - (* the directory and its saved config exist *)
    wp. rewrite Hpath, andb_false_r. wp. rewrite Hsaved, orb_true_r. wp.
    rewrite Hsaved. cbn [negb]. train_tail fs.
  - (* the directory exists, without a saved config *)
    wp. rewrite Hpath, andb_false_r. wp. rewrite Hsaved, orb_false_r.
    destruct config as [given|].
    + rewrite (bool_decide_eq_false_2 (Some given = None)) by done. wp.
      destruct (makedirs path fs) as [fs1|]; [|close_log]. wp.
      destruct (copyfile given saved fs1) as [fs2|]; [|close_log].
      train_tail fs2.
    + rewrite (bool_decide_eq_true_2 (@None string = None)) by done. wp.
      rewrite Hsaved. cbn [negb]. close_log.
  - (* a saved config without its directory: the empty path *)
    wp. rewrite Hpath. destruct config as [given|].
    + rewrite (bool_decide_eq_false_2 (Some given = None)) by done.
      cbn [andb]. wp. rewrite Hsaved, orb_true_r. wp.
      rewrite Hsaved. cbn [negb]. train_tail fs.
    + rewrite (bool_decide_eq_true_2 (@None string = None)) by done.
      cbn [andb negb]. close_log.
  - (* neither exists *)
    wp. rewrite Hpath. destruct config as [given|].
    + rewrite (bool_decide_eq_false_2 (Some given = None)) by done.
      cbn [andb]. wp. rewrite Hsaved. cbn [orb]. wp.
      destruct (makedirs path fs) as [fs1|]; [|close_log]. wp.
      destruct (copyfile given saved fs1) as [fs2|]; [|close_log].
      train_tail fs2.
    + rewrite (bool_decide_eq_true_2 (@None string = None)) by done.
      cbn [andb negb]. close_log.
Qed.

(** A well-formed disk on which [train] finds a saved config next to a
    new one and keeps to the saved one. *)
Lemma train_keeps_saved_config_witness :
  path_exists trained_disk "model" = true ∧
  path_exists trained_disk (join "model" CONFIG_PATH) = true ∧
  disk (train (Some "new.yaml") "model" "data" 5000 None [] trained_disk)
  = trained_disk ∧
  head (calls (train (Some "new.yaml") "model" "data" 5000 None [] trained_disk))
  = Some (OmegaConfLoad "model/config.yaml").
Proof.
  assert (Hp : path_exists trained_disk "model" = true)
    by (vm_compute; reflexivity).
  assert (Hs : path_exists trained_disk (join "model" CONFIG_PATH) = true)
    by (vm_compute; reflexivity).
  split; [exact Hp|]. split; [exact Hs|].
  destruct (train_keeps_saved_config (Some "new.yaml") "model" "data" 5000 None []
              trained_disk) as [Hkept _].
  destruct (Hkept Hp Hs) as (Hdisk & Hhead & _).
  split; [exact Hdisk | exact Hhead].
Defined.

(** The model directory of the examples is a well-formed disk. *)
Example trained_disk_well_formed : well_formed trained_disk.
Proof.
  apply (bool_decide_unpack (well_formed trained_disk)). vm_compute. exact I.
Qed.

(** [setup.py] declares one native extension, built from four C++ files
    with fast-math optimisation and OpenMP. *)
Remark kernel_extension_build :
  Setup.name <$> Setup.ext_modules = ["wavernn_kernel"] ∧
  ∀ e, e ∈ Setup.ext_modules →
    length (Setup.sources e) = 4 ∧
    "-Ofast" ∈ Setup.extra_compile_args e ∧
    "-fopenmp" ∈ Setup.extra_compile_args e.
Proof.
  split; [reflexivity|]. intros e He.
  apply list_elem_of_singleton in He as ->.
  split; [reflexivity|]. split; cbn; set_solver.
Qed.

End TrainFacts.

(* ===================================================================== *)
(** * Part III.c  The synthesis driver                                     *)
(* ===================================================================== *)

Module KernelFacts.
Import Kernel.

Section DriverFacts.
Context `{Cell} `{RandomSource}.

(** Outside SYNTHESIZING nothing moves. *)
Lemma iterate_settled (b : bool) (d : Driver) :
  (∀ s, d ≠ SYNTHESIZING s) → iterate b d = d.
Proof. destruct d; intros Hd; try done. by destruct (Hd s). Qed.

Lemma iter_settled (k : nat) (d : Driver) :
  (∀ s, d ≠ SYNTHESIZING s) → Nat.iter k (iterate false) d = d.
Proof.
  intros Hd. induction k as [|k IH]; [done|].
  rewrite Nat.iter_succ, IH. by apply iterate_settled.
Qed.

(** A step that stays in SYNTHESIZING consumed one vector and emitted one
    sample, and left the Weight Set and the mode alone. *)
Lemma iterate_synthesizing (b : bool) (s s' : Session) :
  iterate b (SYNTHESIZING s) = SYNTHESIZING s' →
  b = false ∧
  (∃ c, pending s = c :: pending s') ∧
  (∃ z, waveform s' = waveform s ++ [z]) ∧
  weights s' = weights s ∧ mode s' = mode s.
Proof.
  unfold iterate. destruct (pending s) as [|c rest] eqn:Hp; [done|].
  destruct b; [done|].
  destruct (cell_step _ _ _ _ _ _) as [?|[[st' sym] r']]; [done|].
  intros [= <-]. cbn. eauto 10.
Qed.

(** The loop follows the iterations one by one as long as nobody
    cancels. *)
Lemma run_follows (cancel : nat → bool) (k fuel : nat) (s0 sk : Session) :
  Nat.iter k (iterate false) (SYNTHESIZING s0) = SYNTHESIZING sk →
  (∀ j, j < k → cancel (length (waveform s0) + j) = false) →
  length (waveform sk) = length (waveform s0) + k ∧
  length (pending s0) = k + length (pending sk) ∧
  waveform s0 `prefix_of` waveform sk ∧
  run (k + fuel) cancel (SYNTHESIZING s0) = run fuel cancel (SYNTHESIZING sk).
Proof.
  revert s0. induction k as [|k IH]; intros s0 Hk Hc.
  - injection Hk as ->. rewrite Nat.add_0_r. done.
  - rewrite Nat.iter_succ_r in Hk.
    destruct (iterate false (SYNTHESIZING s0)) as [| | s1 | |] eqn:H1;
      try (rewrite iter_settled in Hk by done; discriminate Hk).
    destruct (iterate_synthesizing _ _ _ H1) as (_ & [c Hp] & [z Hw] & _ & _).
    destruct (IH s1 Hk) as (Hlen & Hpend & Hpre & Hrun).
    { intros j Hj. rewrite Hw, length_app. cbn.
      replace (length (waveform s0) + 1 + j) with (length (waveform s0) + S j) by lia.
      apply Hc. lia. }
    rewrite Hw, length_app in Hlen. cbn in Hlen.
    repeat split.
    + lia.
    + rewrite Hp. cbn. lia.
    + etrans; [|exact Hpre]. rewrite Hw. by apply prefix_app_r.
    + cbn [Nat.add run]. rewrite <- (Nat.add_0_r (length (waveform s0))).
      rewrite Hc by lia. rewrite H1. exact Hrun.
Qed.


(** The loop always ends: with one unit of fuel per unread vector and one
    more, the driver leaves SYNTHESIZING, whatever the cell and the
    cancellation checks answer. *)
Lemma run_settles (cancel : nat → bool) (n : nat) (s : Session) :
  length (pending s) ≤ n →
  ∃ s', run (S n) cancel (SYNTHESIZING s) = COMPLETE s'
        ∨ run (S n) cancel (SYNTHESIZING s) = ABORTED s'.
Proof.
  revert s. induction n as [|n IH]; intros s Hn.
  - destruct (pending s) as [|c rest] eqn:Hp; [|cbn in Hn; lia].
    exists s. left. cbn. by rewrite Hp.
  - cbn [run]. unfold iterate.
    destruct (pending s) as [|c rest] eqn:Hp; [exists s; by left|].
    destruct (cancel _); [exists s; by right|].
    destruct (cell_step _ _ _ _ _ _) as [?|[[st' sym] r']];
      [exists s; by right|].
    apply IH. cbn in *. lia.
Qed.

Lemma synthesize_settles (cancel : nat → bool) (s : Session) :
  ∃ s', synthesize cancel (SYNTHESIZING s) = COMPLETE s'
        ∨ synthesize cancel (SYNTHESIZING s) = ABORTED s'.
Proof. by apply run_settles. Qed.

Lemma begin_synthesizing (W : WeightSet) (cs : list (list f32))
    (m : SamplingMode) (r : Rng) (d : Driver) :
  begin W cs m r = inr d →
  ∃ s, d = SYNTHESIZING s ∧ weights s = W ∧ pending s = cs ∧
       waveform s = [] ∧ mode s = m ∧ rng s = r.
Proof.
  unfold begin, load, start. destruct (shapes_ok W); [|done].
  destruct (forallb _ cs); [|done].
  intros [= <-]. eexists. repeat split.
Qed.

(** C5.  A session cancelled at the check that follows k completed
    steps ends in ABORTED holding exactly the session state after those k
    steps: k samples, a prefix of what the uncancelled session emits, and
    no trace of a further step.  Reading the output, iterating or
    synthesising again on the aborted driver returns it unchanged. *)
Theorem abort_keeps_the_prefix (W : WeightSet) (cs : list (list f32))
    (m : SamplingMode) (r : Rng) (cancel : nat → bool) (k : nat)
    (d0 : Driver) (sk : Session) :
  begin W cs m r = inr d0 →
  Nat.iter k (iterate false) d0 = SYNTHESIZING sk →
  pending sk ≠ [] →
  (∀ j, j < k → cancel j = false) →
  cancel k = true →
  let d := synthesize cancel d0 in
  session W cs m r cancel = inr d ∧
  d = ABORTED sk ∧
  length (output d) = k ∧
  (∀ full, session W cs m r never = inr full → output d `prefix_of` output full) ∧
  (∀ b, iterate b d = d) ∧
  (∀ cancel', synthesize cancel' d = d).
Proof.
  intros Hbegin Hk Hpend Hnot Hyes d.
  destruct (begin_synthesizing _ _ _ _ _ Hbegin) as (s0 & -> & _ & _ & Hw0 & _).
  destruct (run_follows cancel k (S (length (pending sk))) s0 sk Hk)
    as (Hlen & Hfuel & _ & Hrun).
  { intros j Hj. rewrite Hw0. by apply Hnot. }
  rewrite Hw0 in Hlen. cbn in Hlen.
  assert (Hd : d = ABORTED sk).
  { subst d. unfold synthesize, unread.
    replace (S (length (pending s0))) with (k + S (length (pending sk))) by lia.
    rewrite Hrun. cbn [run]. rewrite Hlen, Hyes. unfold iterate.
    destruct (pending sk); [done|]. by destruct (length _). }
  split; [by unfold session; rewrite Hbegin|].
  split; [exact Hd|]. rewrite Hd. cbn [output].
  split; [exact Hlen|].
  split; [|by split].
  intros full. unfold session. rewrite Hbegin. intros [= <-].
  unfold synthesize, unread.
  destruct (run_follows never k (S (length (pending sk))) s0 sk Hk)
    as (_ & _ & _ & Hrun'); [done|].
  replace (S (length (pending s0))) with (k + S (length (pending sk))) by lia.
  rewrite Hrun'. clear -sk.
  (* the rest of the run only appends *)
  generalize (S (length (pending sk))). intros fuel.
  assert (Hmono : ∀ fuel d', output d' `prefix_of` output (run fuel never d')).
  { clear. induction fuel as [|fuel IH]; intros d'; [by destruct d'|].
    destruct d' as [| |s| |]; try done.
    cbn [run]. etrans; [|apply IH].
    unfold iterate, never. destruct (pending s); [done|].
    destruct (cell_step _ _ _ _ _ _) as [?|[[??]?]]; [done|].
    cbn. by apply prefix_app_r. }
  apply (Hmono fuel (SYNTHESIZING sk)).
Qed.


(** The validity check finds every NaN and every negative entry. *)
Lemma corrupt_entry_caught (dist : list f32) :
  has_corrupt_entry dist → proper_distribution dist = false.
Proof.
  intros (p & Hin & Hp). apply not_true_is_false. intros Hall.
  unfold proper_distribution in Hall. rewrite forallb_forall in Hall.
  specialize (Hall p (proj1 (list_elem_of_In _ _) Hin)).
  apply negb_true_iff, orb_false_iff in Hall as [Hnan Hneg].
  destruct Hp as [-> | Hp]; [done|].
  unfold f32_is_negative in Hneg. congruence.
Qed.

Lemma corrupted_step_faults (s : Session) (c : list f32) :
  corrupted_at s c →
  cell_step (mode s) (weights s) (state s) (history s) c (rng s)
  = inl NumericCorruption.
Proof.
  unfold corrupted_at, cell_step.
  destruct (coarse_phase _ _ _ _) as [st' dc].
  intros [Hc | Hf].
  - by rewrite (corrupt_entry_caught _ Hc).
  - destruct (proper_distribution dc); [|done].
    destruct (draw (mode s) dc (rng s)) as [ci r1]. cbn in Hf.
    by rewrite (corrupt_entry_caught _ Hf).
Qed.

(** C6.  If the step that follows k completed steps normalises to a
    distribution with a NaN or a negative entry, in its coarse or its
    fine phase, that iteration moves the driver to ABORTED; the session
    ends there with the k samples emitted before and nothing sampled from
    the corrupt distribution. *)
Theorem corruption_aborts_the_session (W : WeightSet) (cs : list (list f32))
    (m : SamplingMode) (r : Rng) (cancel : nat → bool) (k : nat)
    (d0 : Driver) (sk : Session) (c : list f32) (rest : list (list f32)) :
  begin W cs m r = inr d0 →
  Nat.iter k (iterate false) d0 = SYNTHESIZING sk →
  (∀ j, j < k → cancel j = false) →
  pending sk = c :: rest →
  corrupted_at sk c →
  iterate false (SYNTHESIZING sk) = ABORTED sk ∧
  session W cs m r cancel = inr (ABORTED sk) ∧
  session_output W cs m r cancel = inr (waveform sk) ∧
  length (waveform sk) = k.
Proof.
  intros Hbegin Hk Hnot Hpend Hbad.
  pose proof (corrupted_step_faults sk c Hbad) as Hfault.
  assert (Hit : ∀ b, iterate b (SYNTHESIZING sk) = ABORTED sk).
  { intros b. unfold iterate. rewrite Hpend, Hfault. by destruct b. }
  destruct (begin_synthesizing _ _ _ _ _ Hbegin) as (s0 & -> & _ & _ & Hw0 & _).
  destruct (run_follows cancel k (S (length (pending sk))) s0 sk Hk)
    as (Hlen & Hfuel & _ & Hrun).
  { intros j Hj. rewrite Hw0. by apply Hnot. }
  rewrite Hw0 in Hlen. cbn in Hlen.
  assert (Hs : session W cs m r cancel = inr (ABORTED sk)).
  { unfold session. rewrite Hbegin. unfold synthesize, unread.
    replace (S (length (pending s0))) with (k + S (length (pending sk))) by lia.
    rewrite Hrun. cbn [run]. rewrite Hit. by destruct (length (pending sk)). }
  repeat split; [apply Hit | exact Hs | | exact Hlen].
  unfold session_output. by rewrite Hs.
Qed.






End DriverFacts.



Lemma abort_keeps_the_prefix_witness :
  ∃ sk, @session table_cell tape flat_weights (silence 3) Argmax []
          (λ j, Nat.eqb j 2) = inr (ABORTED sk) ∧
        length (waveform sk) = 2.
Proof.
  edestruct (@abort_keeps_the_prefix table_cell tape flat_weights (silence 3)
               Argmax [] (λ j, Nat.eqb j 2) 2)
    as (Hs & Hd & Hlen & _).
  - vm_compute. reflexivity.
  - vm_compute. reflexivity.
  - discriminate.
  - intros j Hj. apply Nat.eqb_neq. lia.
  - reflexivity.
  - eexists. split; [rewrite Hs, Hd; reflexivity|]. rewrite Hd in Hlen. exact Hlen.
Defined.

Lemma corruption_aborts_the_session_witness :
  ∃ sk, @session table_cell tape broken_weights (silence 3) Argmax [] never
          = inr (ABORTED sk) ∧
        length (waveform sk) = 0.
Proof.
  edestruct (@corruption_aborts_the_session table_cell tape broken_weights
               (silence 3) Argmax [] never 0)
    as (_ & Hs & _ & Hlen).
  - vm_compute. reflexivity.
  - reflexivity.
  - intros j Hj. lia.
  - reflexivity.
  - left. exists S754_nan. split; [|by left].
    apply list_elem_of_In. vm_compute. tauto.
  - eexists. split; [exact Hs | exact Hlen].
Defined.

(** The scenario of section 8: hidden size 8, conditioning width 4, a 4 x 4
    alphabet, three zero vectors, argmax sampling.  Three samples come
    out, each the first symbol. *)
Example zero_weights_scenario :
  @session_output table_cell tape flat_weights (silence 3) Argmax [] never
  = inr [0%Z; 0%Z; 0%Z].
Proof. vm_compute. reflexivity. Qed.

End KernelFacts.

(* ===================================================================== *)
(** * Part III.d  What the file operations keep                           *)
(* ===================================================================== *)

Module PosixFrame.
Import Posix PosixFacts.

Section Frame.
Context {B : Type}.
Implicit Types fs : gmap (list string) (node B).

(** [makedirs] only adds directories where nothing was. *)
Lemma mkdir_chain_spec (ks : list (list string)) fs fs' :
  mkdir_chain ks fs = Some fs' →
  (∀ k n, fs !! k = Some n → fs' !! k = Some n) ∧
  (∀ k, k ∉ ks → fs' !! k = fs !! k) ∧
  (∀ k, k ∈ ks → fs' !! k = Some Dir) ∧
  (∀ k, fs' !! k ≠ fs !! k → fs !! k = None ∧ fs' !! k = Some Dir).
Proof.
  revert fs. induction ks as [|k0 ks IH]; intros fs Hm.
  - injection Hm as <-. repeat split; try done.
    intros k Hk. by apply elem_of_nil in Hk.
  - cbn in Hm. destruct (fs !! k0) as [[d|]|] eqn:Hk0; [done| |].
    + destruct (IH _ Hm) as (Hpres & Hframe & Hdirs & Hnew).
      split; [exact Hpres|]. split; [|split; [|exact Hnew]].
      * intros k Hk. apply Hframe. intros Hin. apply Hk. by right.
      * intros k [->|Hk]%elem_of_cons; [by apply Hpres|by apply Hdirs].
    + destruct (IH _ Hm) as (Hpres & Hframe & Hdirs & Hnew).
      assert (Hk0' : fs' !! k0 = Some Dir)
        by (apply Hpres; apply lookup_insert_eq).
      split; [|split; [|split]].
      * intros k n Hk. apply Hpres. rewrite lookup_insert_ne; [done|].
        intros ->. congruence.
      * intros k Hk. rewrite Hframe by (intros Hin; apply Hk; by right).
        apply lookup_insert_ne. intros ->. apply Hk. by left.
      * intros k [->|Hk]%elem_of_cons; [done|by apply Hdirs].
      * intros k Hdiff. destruct (decide (k = k0)) as [->|Hne]; [done|].
        rewrite <- (lookup_insert_ne fs k0 k Dir) by done.
        apply Hnew. by rewrite lookup_insert_ne.
Qed.

Lemma elem_of_ancestors (k key : list string) :
  k ∈ ancestors_and_self key ↔ k ≠ [] ∧ k `prefix_of` key.
Proof.
  unfold ancestors_and_self. rewrite list_elem_of_fmap. split.
  - intros (n & -> & Hn%elem_of_seq). split.
    + intros Hnil%(f_equal length). rewrite length_take in Hnil. cbn in Hnil. lia.
    + apply prefix_take.
  - intros (Hne & suf & ->). exists (length k). split.
    + by rewrite take_app_length.
    + apply elem_of_seq. rewrite length_app. destruct k; [done|]. cbn. lia.
Qed.


(** What [stat] finds depends on the tree only through one key. *)
Lemma lookup_path_agree fs fs' (p : string) :
  fs' !! components p = fs !! components p →
  lookup_path fs' p = lookup_path fs p.
Proof.
  intros Heq. unfold lookup_path. case_bool_decide; [done|].
  destruct (components p) as [|x k]; [done|]. by rewrite Heq.
Qed.

Lemma path_exists_agree fs fs' (p : string) :
  fs' !! components p = fs !! components p →
  path_exists fs' p = path_exists fs p.
Proof. intros Heq. unfold path_exists. by rewrite (lookup_path_agree fs fs'). Qed.

Lemma read_file_agree fs fs' (p : string) :
  fs' !! components p = fs !! components p →
  read_file p fs' = read_file p fs.
Proof. intros Heq. unfold read_file. by rewrite (lookup_path_agree fs fs'). Qed.

(** A file that can be read is stored under its own key. *)
Lemma read_file_key fs (p : string) (d : payload B) :
  read_file p fs = Some d ↔
  p ≠ "" ∧ components p ≠ [] ∧ names_directory p = false ∧
  fs !! components p = Some (File d).
Proof.
  unfold read_file, lookup_path. case_bool_decide as Hp.
  - split; [done | by intros (? & _)].
  - destruct (components p) as [|x k] eqn:Hk.
    + split; [done | by intros (_ & ? & _)].
    + destruct (fs !! (x :: k)) as [[d'|]|]; cycle 1.
      * split; [done | by intros (_ & _ & _ & ?)].
      * split; [done | by intros (_ & _ & _ & ?)].
      * destruct (names_directory p).
        -- split; [done | by intros (_ & _ & ? & _)].
        -- split; [by intros [= ->] | by intros (_ & _ & _ & [= ->])].
Qed.

(** Nothing at [p]: the key of [p] is free, unless [p] is the empty path
    or can only name a directory. *)
Lemma path_missing_key fs (p : string) :
  path_exists fs p = false → p ≠ "" → names_directory p = false →
  fs !! components p = None.
Proof.
  unfold path_exists, lookup_path. intros Hex Hp Hnd.
  apply bool_decide_eq_false in Hex.
  rewrite (bool_decide_eq_false_2 (p = "")), Hnd in Hex by done.
  destruct (components p) as [|x k]; [by destruct Hex; eexists|].
  destruct (fs !! (x :: k)) as [[d|]|]; [| |done]; by destruct Hex; eexists.
Qed.

(** A successful write stores the file under the key of its path. *)
Lemma write_file_spec (p : string) (d : payload B) fs fs' :
  write_file p d fs = Some fs' →
  p ≠ "" ∧ names_directory p = false ∧ components p ≠ [] ∧
  fs' = <[components p := File d]> fs.
Proof.
  unfold write_file. destruct (names_directory p) eqn:Hnd; [done|].
  destruct (components p) as [|x k] eqn:Hk; [done|].
  intros Hw. split; [by intros ->|]. split; [done|]. split; [done|].
  revert Hw. repeat case_match; intros; by simplify_eq.
Qed.

(** What was written is what is read back. *)
Lemma read_after_write (p : string) (d : payload B) fs fs' :
  write_file p d fs = Some fs' → read_file p fs' = Some d.
Proof.
  intros (Hp & Hnd & Hk & ->)%write_file_spec.
  apply read_file_key. by rewrite lookup_insert_eq.
Qed.

(** A write leaves every other key alone. *)
Lemma write_file_frame (p : string) (d : payload B) fs fs' (k : list string) :
  write_file p d fs = Some fs' → k ≠ components p → fs' !! k = fs !! k.
Proof.
  intros (_ & _ & _ & ->)%write_file_spec Hk. by rewrite lookup_insert_ne.
Qed.

(** When a write goes through: the path names a file, nothing but a file
    is in its place, and its parent is the root or a directory. *)
Lemma write_file_succeeds (p : string) (d : payload B) fs :
  names_directory p = false → components p ≠ [] →
  (parent (components p) = [] ∨ fs !! parent (components p) = Some Dir) →
  fs !! components p ≠ Some Dir →
  is_Some (write_file p d fs).
Proof.
  intros Hnd Hk Hparent Hfile. unfold write_file. rewrite Hnd.
  destruct (components p) as [|x k]; [done|].
  destruct Hparent as [-> | ->]; repeat case_match; by eauto.
Qed.

Lemma copyfile_spec (src dst : string) fs fs' :
  copyfile src dst fs = Some fs' →
  components src ≠ components dst ∧
  ∃ d, read_file src fs = Some d ∧ write_file dst d fs = Some fs'.
Proof.
  unfold copyfile. case_bool_decide; [done|].
  destruct (read_file src fs) as [d|]; [|done]. cbn. eauto.
Qed.

End Frame.

(** The last raw component of a joined path is that of the name joined. *)
Lemma split_sep_nonempty (acc s : string) : split_sep acc s ≠ [].
Proof.
  revert acc. induction s as [|c s IH]; intros acc; [done|].
  cbn. case_bool_decide; [done|apply IH].
Qed.

Lemma last_split_glue (a b : string) :
  last (split_sep "" (a +:+ String "/" b)) = last (split_sep "" b).
Proof.
  rewrite split_sep_glue.
  destruct (split_sep "" b) as [|x l] eqn:Hb; [by destruct (split_sep_nonempty "" b)|].
  by rewrite last_app_cons.
Qed.

Lemma names_directory_join (a b : string) :
  starts_with_sep b = false →
  names_directory (join a b) = names_directory b.
Proof.
  intros Hb. unfold names_directory, join. rewrite Hb.
  case_bool_decide as Ha; cbn [orb].
  - subst a. by rewrite append_nil_l.
  - destruct (ends_with_sep a) eqn:Hsep.
    + destruct (ends_with_sep_inv a Hsep) as [a' ->].
      rewrite append_assoc. change ("/" +:+ b) with (String "/" b).
      by rewrite last_split_glue.
    + change ("/" +:+ b) with (String "/" b). by rewrite last_split_glue.
Qed.

(** Joining a name that has components never gives the empty path. *)
Lemma join_nonempty (a b : string) :
  starts_with_sep b = false → components b ≠ [] → join a b ≠ "".
Proof.
  intros Hb Hk Hj. pose proof (components_join a b Hb) as Hc.
  rewrite Hj in Hc. change (components "") with (@nil string) in Hc.
  symmetry in Hc. apply app_eq_nil in Hc as [_ Hc]. done.
Qed.

End PosixFrame.

(* ===================================================================== *)
(** * Part III.e  More about [train] and [export]                          *)
(* ===================================================================== *)

Module TrainMore.
Import Posix Wavernn PosixFacts TrainFacts PosixFrame.

(** [train], written as its first check followed by its two blocks. *)
Lemma train_blocks (config : option string) (path data : string)
    (test_every : Z) (initial_weights : option string)
    (overrides : list string) :
  train config path data test_every initial_weights overrides =
  (path_present ← os_path_exists path;
   die_if (bool_decide (config = None) && negb path_present)
     (no_directory_message path);;
   config ← config_block config path;
   fit_block config path data test_every initial_weights overrides).
Proof. reflexivity. Qed.

(** The outcomes of the config block, case by case. *)
Lemma holds_config_block (config : option string) (path : string) (fs : tree) Q :
  (let saved := join path CONFIG_PATH in
   if path_exists fs saved then Q (Returned saved) fs []
   else
     match config with
     | None => Q (Exited (no_config_message path)) fs []
     | Some given =>
         match makedirs path fs with
         | None => Q (Raised "FileExistsError") fs [Makedirs path]
         | Some fs1 =>
             match copyfile given saved fs1 with
             | None => Q (Raised "OSError") fs1 [Makedirs path; Copyfile given saved]
             | Some fs2 => Q (Returned given) fs2 [Makedirs path; Copyfile given saved]
             end
         end
     end) →
  holds (config_block config path) fs Q.
Proof.
  cbv zeta. intros HQ. unfold config_block. cbv zeta. wp.
  destruct (path_exists fs (join path CONFIG_PATH)) eqn:Hsaved.
  - rewrite orb_true_r. wp. rewrite Hsaved. cbn [negb]. wp. exact HQ.
  - rewrite orb_false_r. destruct config as [given|].
    + rewrite (bool_decide_eq_false_2 (Some given = None)) by done. wp.
      destruct (makedirs path fs) as [fs1|]; [|exact HQ]. wp.
      destruct (copyfile given _ fs1) as [fs2|]; [|exact HQ]. wp. exact HQ.
    + rewrite (bool_decide_eq_true_2 (@None string = None)) by done. wp.
      rewrite Hsaved. cbn [negb]. exact HQ.
Qed.

(** The outcomes of the fit block, case by case. *)
Lemma holds_fit_block (config path data : string) (test_every : Z)
    (initial_weights : option string) (overrides : list string) (fs : tree) Q :
  (let last := join3 path CHECKPOINTS_DIR "last.ckpt" in
   let fit m resume :=
     Fit m data test_every (join path CHECKPOINTS_DIR) BEST_CHECKPOINT path resume in
   match read_file config fs with
   | Some (Bytes yaml) =>
       let mc := MergeWithDotlist (MergeWith Structured yaml) overrides in
       match initial_weights with
       | Some w =>
           match read_file w fs with
           | Some (Bytes ckpt) =>
               Q (Returned ()) fs
                 [OmegaConfLoad config; LoadFromCheckpoint w;
                  fit (LoadedModel w ckpt mc) None]
           | _ => Q (Raised "OSError") fs [OmegaConfLoad config; LoadFromCheckpoint w]
           end
       | None =>
           if path_exists fs last then
             match read_file last fs with
             | Some (Bytes ckpt) =>
                 Q (Returned ()) fs
                   [OmegaConfLoad config; LoadFromCheckpoint last;
                    fit (LoadedModel last ckpt mc) (Some last)]
             | _ => Q (Raised "OSError") fs [OmegaConfLoad config; LoadFromCheckpoint last]
             end
           else
             Q (Returned ()) fs
               [OmegaConfLoad config; InitializeInputStats data;
                fit (WithInputStats (NewModel mc) data) None]
       end
   | _ => Q (Raised "OSError") fs [OmegaConfLoad config]
   end) →
  holds (fit_block config path data test_every initial_weights overrides) fs Q.
Proof.
  cbv zeta. intros HQ. unfold fit_block. cbv zeta. wp.
  destruct (read_file config fs) as [[yaml|]|]; [|exact HQ..].
  destruct initial_weights as [w|].
  - wp. destruct (read_file w fs) as [[ckpt|]|]; [|exact HQ..]. wp. exact HQ.
  - wp. destruct (path_exists fs _).
    + wp. destruct (read_file _ fs) as [[ckpt|]|]; [|exact HQ..]. wp. exact HQ.
    + wp. exact HQ.
Qed.

(** [train] is its first check followed by its two blocks. *)
Lemma holds_train (config : option string) (path data : string)
    (test_every : Z) (initial_weights : option string)
    (overrides : list string) (fs : tree) Q :
  (if bool_decide (config = None) && negb (path_exists fs path)
   then Q (Exited (no_directory_message path)) fs []
   else
     holds (config_block config path) fs (λ o fs' evs,
       match o with
       | Returned c =>
           holds (fit_block c path data test_every initial_weights overrides) fs'
             (λ o' fs'' evs', Q o' fs'' (evs ++ evs'))
       | Exited msg => Q (Exited msg) fs' evs
       | Raised exn => Q (Raised exn) fs' evs
       end)) →
  holds (train config path data test_every initial_weights overrides) fs Q.
Proof.
  intros HQ. rewrite train_blocks. wp.
  destruct (bool_decide (config = None) && negb (path_exists fs path));
    [exact HQ|].
  wp. exact HQ.
Qed.

(** Every branch of [train], one goal each. *)
Ltac train_cases :=
  apply holds_train;
  repeat first
    [ progress lazy beta iota zeta
    | progress cbn [app]
    | apply holds_config_block
    | apply holds_fit_block
    | match goal with
      | |- context [bool_decide (Some ?g = None)] =>
          rewrite (bool_decide_eq_false_2 (Some g = None)) by done;
          cbn [andb orb negb]
      | |- context [bool_decide (@None string = None)] =>
          rewrite (bool_decide_eq_true_2 (@None string = None)) by done;
          cbn [andb orb negb]
      | |- context [bool_decide (?x = None)] => is_var x; destruct x
      | |- match read_file ?p ?fs with _ => _ end =>
          let H := fresh "Hread" in
          destruct (read_file p fs) as [[?|?]|] eqn:H
      | |- match makedirs ?p ?fs with _ => _ end =>
          let H := fresh "Hmk" in destruct (makedirs p fs) eqn:H
      | |- match copyfile ?a ?b ?fs with _ => _ end =>
          let H := fresh "Hcp" in destruct (copyfile a b fs) eqn:H
      | |- match ?iw with Some _ => _ | None => _ end => is_var iw; destruct iw
      | |- if negb ?b then _ else _ =>
          let H := fresh "Hex" in destruct b eqn:H; cbn [negb]
      | |- if ?b then _ else _ =>
          let H := fresh "Hex" in destruct b eqn:H
      end ].

(** X1.  [train] exits through [die_if] only when --config was not
    passed: with the first message when the model directory does not
    exist, with the second when it exists without a saved config.  It
    has then made no call and changed nothing. *)
Theorem train_exits_only_without_config
    (config : option string) (path data : string) (test_every : Z)
    (initial_weights : option string) (overrides : list string) (fs : tree)
    (msg : string) :
  let r := train config path data test_every initial_weights overrides fs in
  (result r = Exited msg ↔
     config = None ∧
     ((path_exists fs path = false ∧ msg = no_directory_message path) ∨
      (path_exists fs path = true ∧
       path_exists fs (join path CONFIG_PATH) = false ∧
       msg = no_config_message path)))
  ∧ (result r = Exited msg → disk r = fs ∧ calls r = []).
Proof.
  intros r. subst r.
  apply (holds_elim (train config path data test_every initial_weights overrides) fs
    (λ o fs' evs,
       (o = Exited msg ↔
          config = None ∧
          ((path_exists fs path = false ∧ msg = no_directory_message path) ∨
           (path_exists fs path = true ∧
            path_exists fs (join path CONFIG_PATH) = false ∧
            msg = no_config_message path)))
       ∧ (o = Exited msg → fs' = fs ∧ evs = []))).
  train_cases.
  all: try (intuition (subst; congruence)).
Qed.

(** The saved config path names a file, with the key of the model
    directory followed by the file name. *)
Lemma saved_config_key (path : string) :
  join path CONFIG_PATH ≠ "" ∧
  names_directory (join path CONFIG_PATH) = false ∧
  components (join path CONFIG_PATH) = components path ++ [CONFIG_PATH] ∧
  parent (components (join path CONFIG_PATH)) = components path.
Proof.
  assert (Hk : components (join path CONFIG_PATH) = components path ++ [CONFIG_PATH])
    by (by rewrite components_join).
  split; [by apply join_nonempty|]. split; [by rewrite names_directory_join|].
  split; [exact Hk|]. rewrite Hk. apply removelast_last.
Qed.

(** With no saved config, its key is free. *)
Lemma saved_config_missing (fs : tree) (path : string) :
  path_exists fs (join path CONFIG_PATH) = false →
  fs !! components (join path CONFIG_PATH) = None.
Proof.
  intros Hex. destruct (saved_config_key path) as (Hne & Hnd & _).
  by apply path_missing_key.
Qed.

(** After [makedirs], the directory exists. *)
Lemma makedirs_exists (fs fs1 : tree) (path : string) :
  makedirs path fs = Some fs1 →
  path ≠ "" ∧
  (components path = [] ∨ fs1 !! components path = Some Dir) ∧
  path_exists fs1 path = true.
Proof.
  unfold makedirs. case_bool_decide as Hp; [done|]. intros Hmk.
  destruct (mkdir_chain_spec _ _ _ Hmk) as (_ & _ & Hdirs & _).
  split; [done|].
  assert (Hdir : components path = [] ∨ fs1 !! components path = Some Dir).
  { destruct (components path) as [|x k] eqn:Hk; [by left|]. right.
    apply Hdirs. apply elem_of_ancestors. done. }
  split; [exact Hdir|].
  unfold path_exists, lookup_path. apply bool_decide_eq_true.
  rewrite (bool_decide_eq_false_2 (path = "")) by done.
  destruct Hdir as [-> | Hdir]; [by eexists|].
  destruct (components path); [by eexists|]. rewrite Hdir. by eexists.
Qed.

(** What the first run leaves on disk once the copy went through. *)
Lemma config_copy_frame (fs fs1 fs2 : tree) (given path : string) :
  path_exists fs (join path CONFIG_PATH) = false →
  makedirs path fs = Some fs1 →
  copyfile given (join path CONFIG_PATH) fs1 = Some fs2 →
  ∃ d,
    read_file given fs = Some d ∧
    read_file (join path CONFIG_PATH) fs2 = Some d ∧
    read_file given fs2 = Some d ∧
    path_exists fs2 path = true ∧
    (∀ k n, fs !! k = Some n → fs2 !! k = Some n) ∧
    (∀ k, fs2 !! k ≠ fs !! k →
       fs !! k = None ∧
       (k = components (join path CONFIG_PATH) ∨
        (k ≠ [] ∧ k `prefix_of` components path))).
Proof.
  intros Hmiss Hmk Hcp.
  pose proof (saved_config_missing fs path Hmiss) as Hfree.
  destruct (saved_config_key path) as (_ & _ & Hkey & _).
  destruct (makedirs_exists _ _ _ Hmk) as (Hp & Hdir & Hex1).
  unfold makedirs in Hmk. rewrite (bool_decide_eq_false_2 (path = "")) in Hmk by done.
  destruct (mkdir_chain_spec _ _ _ Hmk) as (Hpres & Hframe & Hdirs & Hnew).
  destruct (copyfile_spec _ _ _ _ Hcp) as (Hdiff & d & Hrd1 & Hwr).
  destruct (write_file_spec _ _ _ _ Hwr) as (_ & _ & _ & ->).
  apply read_file_key in Hrd1 as (Hg & Hgk & Hgnd & Hg1).
  assert (Hg0 : fs !! components given = Some (File d)).
  { destruct (decide (components given ∈ ancestors_and_self (components path)))
      as [Hin|Hout].
    - apply Hdirs in Hin. congruence.
    - by rewrite <- Hframe. }
  exists d. split; [by apply read_file_key|].
  split; [by apply (read_after_write _ _ fs1)|].
  split; [apply read_file_key; by rewrite lookup_insert_ne|].
  split.
  { rewrite <- Hex1. apply path_exists_agree. apply lookup_insert_ne.
    rewrite Hkey. intros Heq%(f_equal length). rewrite length_app in Heq.
    cbn in Heq. lia. }
  split.
  - intros k n Hk. rewrite lookup_insert_ne by congruence. by apply Hpres.
  - intros k Hk.
    destruct (decide (k = components (join path CONFIG_PATH))) as [->|Hne];
      [by split; [|left]|].
    rewrite lookup_insert_ne in Hk by done.
    destruct (Hnew _ Hk) as [Hnone _]. split; [done|]. right.
    apply elem_of_ancestors.
    destruct (decide (k ∈ ancestors_and_self (components path))) as [|Hnot];
      [done|]. by destruct Hk; apply Hframe.
Qed.

(** The copy goes through when --config can be read. *)
Lemma config_copy_succeeds (fs fs1 : tree) (given path : string)
    (d : payload artifact) :
  path_exists fs (join path CONFIG_PATH) = false →
  read_file given fs = Some d →
  makedirs path fs = Some fs1 →
  is_Some (copyfile given (join path CONFIG_PATH) fs1).
Proof.
  intros Hmiss Hrd Hmk.
  pose proof (saved_config_missing fs path Hmiss) as Hfree.
  destruct (saved_config_key path) as (_ & Hnd & Hkey & Hparent).
  destruct (makedirs_exists _ _ _ Hmk) as (Hp & Hdir & _).
  unfold makedirs in Hmk. rewrite (bool_decide_eq_false_2 (path = "")) in Hmk by done.
  destruct (mkdir_chain_spec _ _ _ Hmk) as (Hpres & Hframe & _ & Hnew).
  apply read_file_key in Hrd as (Hg & Hgk & Hgnd & Hg0).
  assert (Hfree1 : fs1 !! components (join path CONFIG_PATH) = None).
  { rewrite Hframe; [done|]. rewrite Hkey. intros [_ Hpre]%elem_of_ancestors.
    apply prefix_length in Hpre. rewrite length_app in Hpre. cbn in Hpre. lia. }
  unfold copyfile. rewrite (bool_decide_eq_false_2 _) by congruence.
  assert (read_file given fs1 = Some d) as ->
    by (apply read_file_key; auto).
  change (is_Some (write_file (join path CONFIG_PATH) d fs1)).
  apply write_file_succeeds; [done| |rewrite Hparent|congruence].
  - rewrite Hkey. by destruct (components path).
  - destruct Hdir; auto.
Qed.

(** Leaves of [train_cases] that contradict what is known about the
    disk. *)
Ltac impossible :=
  first
    [ congruence
    | match goal with
      | Hok : is_Some None |- _ => by destruct Hok
      | Hmiss : path_exists ?fs (join ?path CONFIG_PATH) = false,
        Hrd : read_file ?given ?fs = Some _,
        Hmk : makedirs ?path ?fs = Some ?fs1,
        Hcp : copyfile ?given (join ?path CONFIG_PATH) ?fs1 = None |- _ =>
          destruct (config_copy_succeeds fs fs1 given path _ Hmiss Hrd Hmk);
          congruence
      end ].

(** What is known after a copy that went through. *)
Ltac copy_facts d' :=
  match goal with
  | Hmiss : path_exists ?fs (join ?path CONFIG_PATH) = false,
    Hmk : makedirs ?path ?fs = Some ?fs1,
    Hcp : copyfile ?given (join ?path CONFIG_PATH) ?fs1 = Some ?fs2 |- _ =>
      let Hd := fresh "Hd" in
      let Hsaved := fresh "Hsaved" in
      let Hgiven := fresh "Hgiven" in
      let Hpath := fresh "Hpath" in
      let Hpres := fresh "Hpres" in
      let Hnew := fresh "Hnew" in
      destruct (config_copy_frame fs fs1 fs2 given path Hmiss Hmk Hcp)
        as (d' & Hd & Hsaved & Hgiven & Hpath & Hpres & Hnew)
  end.

(** What the first run leaves behind; shared by the two statements on
    it. *)
Lemma first_run_facts
    (given path data : string) (test_every : Z)
    (initial_weights : option string) (overrides : list string)
    (fs : tree) (d : payload artifact) :
  path_exists fs (join path CONFIG_PATH) = false →
  read_file given fs = Some d →
  is_Some (makedirs path fs) →
  let r := train (Some given) path data test_every initial_weights overrides fs in
  read_file (join path CONFIG_PATH) (disk r) = Some d ∧
  read_file given (disk r) = Some d ∧
  path_exists (disk r) path = true ∧
  take 3 (calls r) =
    [Makedirs path; Copyfile given (join path CONFIG_PATH); OmegaConfLoad given].
Proof.
  intros Hmiss Hrd Hok r. subst r.
  apply (holds_elim
    (train (Some given) path data test_every initial_weights overrides) fs
    (λ _ fs' evs,
       read_file (join path CONFIG_PATH) fs' = Some d ∧
       read_file given fs' = Some d ∧
       path_exists fs' path = true ∧
       take 3 evs =
         [Makedirs path; Copyfile given (join path CONFIG_PATH);
          OmegaConfLoad given])).
  train_cases; try impossible.
  all: copy_facts d'.
  all: assert (d' = d) as -> by congruence.
  all: repeat split; congruence.
Qed.

(** X2.  First run, for --config and --path given without a parent link
    [..] (with one, the two can name the same file under different keys
    and the copy is refused): with no saved config, a readable --config
    file and a model directory that can be created, [train] creates the
    directory, copies --config to config.yaml and then loads the
    --config file itself; afterwards config.yaml holds what --config
    holds. *)
Theorem train_first_run_stores_config
    (given path data : string) (test_every : Z)
    (initial_weights : option string) (overrides : list string)
    (fs : tree) (d : payload artifact) :
  no_parent_link given →
  no_parent_link path →
  path_exists fs (join path CONFIG_PATH) = false →
  read_file given fs = Some d →
  is_Some (makedirs path fs) →
  let r := train (Some given) path data test_every initial_weights overrides fs in
  read_file (join path CONFIG_PATH) (disk r) = Some d ∧
  read_file given (disk r) = Some d ∧
  path_exists (disk r) path = true ∧
  take 3 (calls r) =
    [Makedirs path; Copyfile given (join path CONFIG_PATH); OmegaConfLoad given].
Proof. intros _ _. apply first_run_facts. Qed.



(** Membership in a literal log, with the entry found substituted. *)
Ltac in_calls H :=
  repeat (apply elem_of_cons in H as [H|H];
          [first [discriminate H | inversion H; subst; try clear H]|]);
  try (apply elem_of_nil in H; destruct H).

(** Which checkpoint is loaded and what the trainer is handed; shared by
    the two statements on it. *)
Lemma checkpoint_facts
    (config : option string) (path data : string) (test_every : Z)
    (initial_weights : option string) (overrides : list string) (fs : tree) :
  let r := train config path data test_every initial_weights overrides fs in
  let last := join3 path CHECKPOINTS_DIR "last.ckpt" in
  (∀ p, LoadFromCheckpoint p ∈ calls r →
     match initial_weights with
     | Some w => p = w
     | None => p = last ∧ path_exists (disk r) last = true
     end)
  ∧ (∀ d, InitializeInputStats d ∈ calls r →
       d = data ∧ initial_weights = None ∧ path_exists (disk r) last = false)
  ∧ (∀ m d te dirpath filename save_dir resume,
       Fit m d te dirpath filename save_dir resume ∈ calls r →
       d = data ∧ te = test_every ∧
       dirpath = join path CHECKPOINTS_DIR ∧ filename = BEST_CHECKPOINT ∧
       save_dir = path ∧
       match initial_weights with
       | Some w =>
           resume = None ∧
           ∃ ckpt c, read_file w (disk r) = Some (Bytes ckpt) ∧
                     m = LoadedModel w ckpt c
       | None =>
           if path_exists (disk r) last then
             resume = Some last ∧
             ∃ ckpt c, read_file last (disk r) = Some (Bytes ckpt) ∧
                       m = LoadedModel last ckpt c
           else
             resume = None ∧ ∃ c, m = WithInputStats (NewModel c) data
       end).
Proof.
  intros r last. subst r.
  apply (holds_elim (train config path data test_every initial_weights overrides) fs
    (λ _ fs' evs,
       (∀ p, LoadFromCheckpoint p ∈ evs →
          match initial_weights with
          | Some w => p = w
          | None => p = last ∧ path_exists fs' last = true
          end)
       ∧ (∀ d, InitializeInputStats d ∈ evs →
            d = data ∧ initial_weights = None ∧ path_exists fs' last = false)
       ∧ (∀ m d te dirpath filename save_dir resume,
            Fit m d te dirpath filename save_dir resume ∈ evs →
            d = data ∧ te = test_every ∧
            dirpath = join path CHECKPOINTS_DIR ∧ filename = BEST_CHECKPOINT ∧
            save_dir = path ∧
            match initial_weights with
            | Some w =>
                resume = None ∧
                ∃ ckpt c, read_file w fs' = Some (Bytes ckpt) ∧
                          m = LoadedModel w ckpt c
            | None =>
                if path_exists fs' last then
                  resume = Some last ∧
                  ∃ ckpt c, read_file last fs' = Some (Bytes ckpt) ∧
                            m = LoadedModel last ckpt c
                else
                  resume = None ∧ ∃ c, m = WithInputStats (NewModel c) data
            end))).
  subst last.
  train_cases.
  all: split; [intros p Hin; in_calls Hin; try done|].
  all: split; [intros d Hin; in_calls Hin; try done|].
  all: intros m d te dirpath filename save_dir resume Hin.
  all: in_calls Hin.
  all: repeat split; eauto.
Qed.

(** X5.  Which checkpoint [train] starts from.  With --initial-weights
    the model is loaded from that file and the trainer does not resume,
    even if last.ckpt exists.  Without it, an existing last.ckpt is
    loaded and resumed from; otherwise the input statistics of a new
    model are initialised and nothing is resumed.  The trainer always
    gets the data, the validation interval, checkpoints/ and best of
    this command. *)
Theorem train_checkpoint_choice
    (config : option string) (path data : string) (test_every : Z)
    (initial_weights : option string) (overrides : list string) (fs : tree) :
  let r := train config path data test_every initial_weights overrides fs in
  let last := join3 path CHECKPOINTS_DIR "last.ckpt" in
  (∀ p, LoadFromCheckpoint p ∈ calls r →
     match initial_weights with
     | Some w => p = w
     | None => p = last ∧ path_exists (disk r) last = true
     end)
  ∧ (∀ d, InitializeInputStats d ∈ calls r →
       d = data ∧ initial_weights = None ∧ path_exists (disk r) last = false)
  ∧ (∀ m d te dirpath filename save_dir resume,
       Fit m d te dirpath filename save_dir resume ∈ calls r →
       d = data ∧ te = test_every ∧
       dirpath = join path CHECKPOINTS_DIR ∧ filename = BEST_CHECKPOINT ∧
       save_dir = path ∧
       match initial_weights with
       | Some w =>
           resume = None ∧
           ∃ ckpt c, read_file w (disk r) = Some (Bytes ckpt) ∧
                     m = LoadedModel w ckpt c
       | None =>
           if path_exists (disk r) last then
             resume = Some last ∧
             ∃ ckpt c, read_file last (disk r) = Some (Bytes ckpt) ∧
                       m = LoadedModel last ckpt c
           else
             resume = None ∧ ∃ c, m = WithInputStats (NewModel c) data
       end).
Proof. apply checkpoint_facts. Qed.

(** X10.  Without --initial-weights, [train] never loads the best
    checkpoint and never resumes from it: the only checkpoint it touches
    is last.ckpt, a different file. *)
Theorem train_never_resumes_from_best
    (config : option string) (path data : string) (test_every : Z)
    (overrides : list string) (fs : tree) (initial_weights : option string) :
  initial_weights = None →
  let r := train config path data test_every initial_weights overrides fs in
  (∀ p, LoadFromCheckpoint p ∈ calls r →
     components p ≠ components (best_path path))
  ∧ (∀ m d te dirpath filename save_dir q,
       Fit m d te dirpath filename save_dir (Some q) ∈ calls r →
       components q ≠ components (best_path path)).
Proof.
  intros -> r.
  destruct (checkpoint_facts config path data test_every None overrides fs)
    as (Hload & _ & Hfit).
  fold r in Hload, Hfit. split.
  - intros p Hin. destruct (Hload p Hin) as [-> _]. apply last_is_not_best.
  - intros m d te dirpath filename save_dir q Hin.
    destruct (Hfit _ _ _ _ _ _ _ Hin) as (_ & _ & _ & _ & _ & Hres).
    destruct (path_exists (disk r) (join3 path CHECKPOINTS_DIR "last.ckpt")).
    + destruct Hres as [[= ->] _]. apply last_is_not_best.
    + by destruct Hres as [? _].
Qed.

(** The config of a fitted model and the file it came from. *)
Lemma fit_config_facts
    (config : option string) (path data : string) (test_every : Z)
    (initial_weights : option string) (overrides : list string) (fs : tree)
    (m : model_val) (d : string) (te : Z) (dirpath filename save_dir : string)
    (resume : option string) :
  let r := train config path data test_every initial_weights overrides fs in
  Fit m d te dirpath filename save_dir resume ∈ calls r →
  ∃ yaml,
    config_of m = MergeWithDotlist (MergeWith Structured yaml) overrides ∧
    if path_exists fs (join path CONFIG_PATH)
    then read_file (join path CONFIG_PATH) fs = Some (Bytes yaml)
    else ∃ given, config = Some given ∧ read_file given fs = Some (Bytes yaml).
Proof.
  intros r. subst r.
  apply (holds_elim (train config path data test_every initial_weights overrides) fs
    (λ _ _ evs,
       Fit m d te dirpath filename save_dir resume ∈ evs →
       ∃ yaml,
         config_of m = MergeWithDotlist (MergeWith Structured yaml) overrides ∧
         if path_exists fs (join path CONFIG_PATH)
         then read_file (join path CONFIG_PATH) fs = Some (Bytes yaml)
         else ∃ given, config = Some given ∧ read_file given fs = Some (Bytes yaml))).
  train_cases.
  all: intros Hin; in_calls Hin.
  all: try by eauto.
  all: copy_facts d'; eexists; split; [reflexivity|]; eexists; split; [done|].
  all: congruence.
Qed.

(** X6.  Every model [train] fits was built from the structured defaults,
    then the config file, then the overrides: the saved config.yaml if
    there was one, the --config file otherwise. *)
Theorem train_fits_the_loaded_config
    (config : option string) (path data : string) (test_every : Z)
    (initial_weights : option string) (overrides : list string) (fs : tree)
    (m : model_val) (d : string) (te : Z) (dirpath filename save_dir : string)
    (resume : option string) :
  let r := train config path data test_every initial_weights overrides fs in
  Fit m d te dirpath filename save_dir resume ∈ calls r →
  ∃ yaml,
    config_of m = MergeWithDotlist (MergeWith Structured yaml) overrides ∧
    if path_exists fs (join path CONFIG_PATH)
    then read_file (join path CONFIG_PATH) fs = Some (Bytes yaml)
    else ∃ given, config = Some given ∧ read_file given fs = Some (Bytes yaml).
Proof. apply fit_config_facts. Qed.

(** X4.  The first run pins the config.  After a first run that stored
    --config, any later run on a disk whose config.yaml is still the
    stored one fits a model built from the first config, whatever
    --config the later run is given; only the overrides are its own. *)
Theorem config_is_pinned_by_first_run
    (given path : string) (yaml : string) (fs later : tree)
    (data1 data2 : string) (te1 te2 : Z) (iw1 iw2 config2 : option string)
    (ov1 ov2 : list string)
    (m : model_val) (d : string) (te : Z) (dirpath filename save_dir : string)
    (resume : option string) :
  path_exists fs (join path CONFIG_PATH) = false →
  read_file given fs = Some (Bytes yaml) →
  is_Some (makedirs path fs) →
  let first := train (Some given) path data1 te1 iw1 ov1 fs in
  read_file (join path CONFIG_PATH) later
    = read_file (join path CONFIG_PATH) (disk first) →
  let second := train config2 path data2 te2 iw2 ov2 later in
  Fit m d te dirpath filename save_dir resume ∈ calls second →
  config_of m = MergeWithDotlist (MergeWith Structured yaml) ov2.
Proof.
  intros Hmiss Hrd Hok first Hsame second Hfit.
  destruct (first_run_facts given path data1 te1 iw1 ov1 fs _ Hmiss Hrd Hok)
    as (Hsaved & _).
  fold first in Hsaved. rewrite Hsaved in Hsame.
  destruct (fit_config_facts config2 path data2 te2 iw2 ov2 later
              m d te dirpath filename save_dir resume Hfit)
    as (yaml' & Hcfg & Hsrc).
  assert (Hex : path_exists later (join path CONFIG_PATH) = true).
  { unfold path_exists. apply bool_decide_eq_true.
    unfold read_file in Hsame.
    destruct (lookup_path later (join path CONFIG_PATH)); [by eexists|done]. }
  rewrite Hex in Hsrc. congruence.
Qed.

(** X7.  [train] returns normally only after calling the trainer, and the
    trainer call is always its last call. *)
Theorem train_fit_comes_last
    (config : option string) (path data : string) (test_every : Z)
    (initial_weights : option string) (overrides : list string) (fs : tree) :
  let r := train config path data test_every initial_weights overrides fs in
  (result r = Returned () → ∃ e, last (calls r) = Some e ∧ is_fit e = true)
  ∧ (∀ i e, calls r !! i = Some e → is_fit e = true → S i = length (calls r)).
Proof.
  intros r. subst r.
  apply (holds_elim (train config path data test_every initial_weights overrides) fs
    (λ o _ evs,
       (o = Returned () → ∃ e, last evs = Some e ∧ is_fit e = true)
       ∧ (∀ i e, evs !! i = Some e → is_fit e = true → S i = length evs))).
  train_cases.
  all: split;
    [ first [done | intros _; eexists; split; reflexivity]
    | intros i e Hi Hf;
      repeat (destruct i as [|i]; cbn in Hi; simplify_eq; try done) ].
Qed.

(** Every branch of [export], one goal each. *)
Ltac export_cases :=
  unfold export;
  repeat first
    [ progress lazy beta iota zeta
    | progress cbn [app]
    | wp_step
    | match goal with
      | |- match read_file ?p ?fs with _ => _ end =>
          let H := fresh "Hread" in
          destruct (read_file p fs) as [[?|?]|] eqn:H
      | |- match write_file ?p ?d ?fs with _ => _ end =>
          let H := fresh "Hwrite" in destruct (write_file p d fs) eqn:H
      | |- if negb ?b then _ else _ =>
          let H := fresh "Hex" in destruct b eqn:H; cbn [negb]
      end ].

(** C10.  [export] exits through [die_if], before any call and with the
    disk untouched, when the model directory lacks config.yaml or
    checkpoints/last.ckpt.  When both exist it does not exit: it goes on
    to load the config; the only checkpoint it ever loads is last.ckpt,
    which is not the best checkpoint; whatever it saves is the model
    loaded from last.ckpt, saved at --output; and when it returns, its
    calls were exactly load config, load last.ckpt, save, and the file
    at --output holds that model. *)
Theorem export_loads_last_checkpoint (path output : string) (fs : tree) :
  let config := join path CONFIG_PATH in
  let last := join3 path CHECKPOINTS_DIR "last.ckpt" in
  let r := export path output fs in
  (path_exists fs config = false →
     result r = Exited ("Missing config file " +:+ config)
     ∧ disk r = fs ∧ calls r = [])
  ∧ (path_exists fs config = true → path_exists fs last = false →
       result r = Exited ("Missing checkpoint " +:+ last)
       ∧ disk r = fs ∧ calls r = [])
  ∧ (path_exists fs config = true → path_exists fs last = true →
       (∀ msg, result r ≠ Exited msg)
       ∧ head (calls r) = Some (OmegaConfLoad config)
       ∧ (∀ p, LoadFromCheckpoint p ∈ calls r →
            p = last ∧ components p ≠ components (best_path path))
       ∧ (∀ out a, Save out a ∈ calls r →
            out = output ∧
            ∃ yaml ckpt,
              read_file config fs = Some (Bytes yaml) ∧
              read_file last fs = Some (Bytes ckpt) ∧
              a = Scripted (LoadedModel last ckpt (MergeWith Structured yaml)))
       ∧ (result r = Returned () →
            ∃ yaml ckpt,
              read_file config fs = Some (Bytes yaml) ∧
              read_file last fs = Some (Bytes ckpt) ∧
              calls r =
                [OmegaConfLoad config; LoadFromCheckpoint last;
                 Save output
                   (Scripted (LoadedModel last ckpt (MergeWith Structured yaml)))] ∧
              read_file output (disk r) =
                Some (Blob (Scripted (LoadedModel last ckpt
                                        (MergeWith Structured yaml)))) ∧
              ∀ k, k ≠ components output → disk r !! k = fs !! k)).
Proof.
  intros config last r. subst r.
  pose proof (last_is_not_best path) as Hbest. fold last in Hbest.
  apply (holds_elim (export path output) fs (λ o fs' evs,
    (path_exists fs config = false →
       o = Exited ("Missing config file " +:+ config) ∧ fs' = fs ∧ evs = [])
    ∧ (path_exists fs config = true → path_exists fs last = false →
         o = Exited ("Missing checkpoint " +:+ last) ∧ fs' = fs ∧ evs = [])
    ∧ (path_exists fs config = true → path_exists fs last = true →
         (∀ msg, o ≠ Exited msg)
         ∧ head evs = Some (OmegaConfLoad config)
         ∧ (∀ p, LoadFromCheckpoint p ∈ evs →
              p = last ∧ components p ≠ components (best_path path))
         ∧ (∀ out a, Save out a ∈ evs →
              out = output ∧
              ∃ yaml ckpt,
                read_file config fs = Some (Bytes yaml) ∧
                read_file last fs = Some (Bytes ckpt) ∧
                a = Scripted (LoadedModel last ckpt (MergeWith Structured yaml)))
         ∧ (o = Returned () →
              ∃ yaml ckpt,
                read_file config fs = Some (Bytes yaml) ∧
                read_file last fs = Some (Bytes ckpt) ∧
                evs =
                  [OmegaConfLoad config; LoadFromCheckpoint last;
                   Save output
                     (Scripted (LoadedModel last ckpt (MergeWith Structured yaml)))] ∧
                read_file output fs' =
                  Some (Blob (Scripted (LoadedModel last ckpt
                                          (MergeWith Structured yaml)))) ∧
                ∀ k, k ≠ components output → fs' !! k = fs !! k)))).
  subst config last. export_cases.
  all: split; [done|]; split; [done|].
  all: try done.
  all: intros _ _.
  all: split; [done|]; split; [done|].
  all: split; [intros p Hin; in_log Hin; done|].
  all: split; [intros out a Hin; in_log Hin; try (split; [done | by eauto])|].
  all: try done.
  intros _. do 2 eexists. split; [done|]. split; [done|]. split; [done|].
  split; [by eapply read_after_write|].
  intros k Hk. by eapply write_file_frame.
Qed.

(** X8.  [export] changes nothing on disk but the file at --output, and
    nothing at all as long as it has not called save. *)
Theorem export_changes_only_the_output (path output : string) (fs : tree) :
  let r := export path output fs in
  (∀ k, k ≠ components output → disk r !! k = fs !! k) ∧
  ((∀ e, e ∈ calls r → writes e = false) → disk r = fs).
Proof.
  intros r. subst r.
  apply (holds_elim (export path output) fs
    (λ _ fs' evs,
       (∀ k, k ≠ components output → fs' !! k = fs !! k) ∧
       ((∀ e, e ∈ evs → writes e = false) → fs' = fs))).
  export_cases.
  all: try by split.
  split; [intros k Hk; by eapply write_file_frame|].
  intros Hnone. exfalso.
  match type of Hnone with
  | ∀ e, e ∈ [_; _; ?save] → _ =>
      enough (writes save = false) by done; apply Hnone
  end.
  do 2 right. left.
Qed.

(** X9.  When [export] returns normally, config.yaml and last.ckpt were
    readable and the file at --output holds the scripted model loaded
    from last.ckpt with that config, whatever was there before. *)
Theorem export_output_reads_back (path output : string) (fs : tree) :
  let r := export path output fs in
  let config := join path CONFIG_PATH in
  let last := join3 path CHECKPOINTS_DIR "last.ckpt" in
  result r = Returned () →
  ∃ yaml ckpt,
    read_file config fs = Some (Bytes yaml) ∧
    read_file last fs = Some (Bytes ckpt) ∧
    read_file output (disk r)
      = Some (Blob (Scripted (LoadedModel last ckpt (MergeWith Structured yaml)))).
Proof.
  intros r config last. subst r config last.
  apply (holds_elim (export path output) fs
    (λ o fs' _,
       o = Returned () →
       ∃ yaml ckpt,
         read_file (join path CONFIG_PATH) fs = Some (Bytes yaml) ∧
         read_file (join3 path CHECKPOINTS_DIR "last.ckpt") fs = Some (Bytes ckpt) ∧
         read_file output fs'
           = Some (Blob (Scripted
               (LoadedModel (join3 path CHECKPOINTS_DIR "last.ckpt") ckpt
                  (MergeWith Structured yaml)))))).
  export_cases.
  all: try done.
  intros _. do 2 eexists. split; [done|]. split; [done|].
  by eapply read_after_write.
Qed.

Lemma train_first_run_stores_config_witness :
  no_parent_link "new.yaml" ∧
  no_parent_link "runs/m" ∧
  path_exists fresh_disk (join "runs/m" CONFIG_PATH) = false ∧
  read_file "new.yaml" fresh_disk = Some (Bytes "lr: 1") ∧
  is_Some (makedirs "runs/m" fresh_disk) ∧
  read_file "runs/m/config.yaml"
    (disk (train (Some "new.yaml") "runs/m" "data" 5000 None [] fresh_disk))
  = Some (Bytes "lr: 1").
Proof.
  assert (Hmiss : path_exists fresh_disk (join "runs/m" CONFIG_PATH) = false)
    by (vm_compute; reflexivity).
  assert (Hrd : read_file "new.yaml" fresh_disk = Some (@Bytes artifact "lr: 1"))
    by (vm_compute; reflexivity).
  assert (Hok : is_Some (makedirs "runs/m" fresh_disk))
    by (vm_compute; eexists; reflexivity).
  assert (Hgiven : no_parent_link "new.yaml")
    by (apply (bool_decide_unpack (no_parent_link "new.yaml")); vm_compute; exact I).
  assert (Hpath : no_parent_link "runs/m")
    by (apply (bool_decide_unpack (no_parent_link "runs/m")); vm_compute; exact I).
  split; [exact Hgiven|]. split; [exact Hpath|].
  split; [exact Hmiss|]. split; [exact Hrd|]. split; [exact Hok|].
  apply (train_first_run_stores_config "new.yaml" "runs/m" "data" 5000 None []
           fresh_disk _ Hgiven Hpath Hmiss Hrd Hok).
Defined.

Lemma train_fits_the_loaded_config_witness :
  ∃ m resume yaml,
    Fit m "data" 5000 "model/checkpoints" "best" "model" resume
      ∈ calls (train (Some "new.yaml") "model" "data" 5000 None ["lr=3"] trained_disk) ∧
    config_of m = MergeWithDotlist (MergeWith Structured yaml) ["lr=3"] ∧
    read_file "model/config.yaml" trained_disk = Some (Bytes yaml).
Proof.
  eexists _, _.
  assert (Hin : Fit (LoadedModel "model/checkpoints/last.ckpt" "step=7"
                       (MergeWithDotlist (MergeWith Structured "lr: 2") ["lr=3"]))
                  "data" 5000 "model/checkpoints" "best" "model"
                  (Some "model/checkpoints/last.ckpt")
                ∈ calls (train (Some "new.yaml") "model" "data" 5000 None ["lr=3"]
                           trained_disk)).
  { vm_compute. do 2 right. left. }
  destruct (train_fits_the_loaded_config _ _ _ _ _ _ _ _ _ _ _ _ _ _ Hin)
    as (yaml & Hcfg & Hsrc).
  exists yaml. split; [exact Hin|]. split; [exact Hcfg|]. exact Hsrc.
Defined.

Lemma config_is_pinned_by_first_run_witness :
  let first := train (Some "new.yaml") "runs/m" "data" 5000 None [] fresh_disk in
  ∃ m resume,
    Fit m "data" 100 "runs/m/checkpoints" "best" "runs/m" resume
      ∈ calls (train None "runs/m" "data" 100 None ["lr=9"] (disk first)) ∧
    config_of m = MergeWithDotlist (MergeWith Structured "lr: 1") ["lr=9"].
Proof.
  intros first. eexists _, _.
  assert (Hin : Fit (WithInputStats
                       (NewModel (MergeWithDotlist (MergeWith Structured "lr: 1")
                                    ["lr=9"])) "data")
                  "data" 100 "runs/m/checkpoints" "best" "runs/m" None
                ∈ calls (train None "runs/m" "data" 100 None ["lr=9"] (disk first))).
  { vm_compute. do 2 right. left. }
  split; [exact Hin|].
  eapply (config_is_pinned_by_first_run "new.yaml" "runs/m" "lr: 1" fresh_disk
            (disk first) "data" "data" 5000 100 None None None [] ["lr=9"]).
  - vm_compute. reflexivity.
  - vm_compute. reflexivity.
  - vm_compute. eexists. reflexivity.
  - reflexivity.
  - exact Hin.
Defined.

Lemma export_loads_last_checkpoint_witness :
  path_exists trained_disk (join "model" CONFIG_PATH) = true ∧
  path_exists trained_disk (join3 "model" CHECKPOINTS_DIR "last.ckpt") = true ∧
  result (export "model" "out.pt" trained_disk) = Returned () ∧
  calls (export "model" "out.pt" trained_disk) =
    [OmegaConfLoad "model/config.yaml";
     LoadFromCheckpoint "model/checkpoints/last.ckpt";
     Save "out.pt"
       (Scripted (LoadedModel "model/checkpoints/last.ckpt" "step=7"
                    (MergeWith Structured "lr: 2")))] ∧
  read_file "out.pt" (disk (export "model" "out.pt" trained_disk))
  = Some (Blob (Scripted (LoadedModel "model/checkpoints/last.ckpt" "step=7"
                            (MergeWith Structured "lr: 2")))).
Proof.
  assert (Hc : path_exists trained_disk (join "model" CONFIG_PATH) = true)
    by (vm_compute; reflexivity).
  assert (Hl : path_exists trained_disk (join3 "model" CHECKPOINTS_DIR "last.ckpt") = true)
    by (vm_compute; reflexivity).
  assert (Hret : result (export "model" "out.pt" trained_disk) = Returned ())
    by (vm_compute; reflexivity).
  split; [exact Hc|]. split; [exact Hl|]. split; [exact Hret|].
  destruct (export_loads_last_checkpoint "model" "out.pt" trained_disk)
    as (_ & _ & Hboth).
  destruct (Hboth Hc Hl) as (_ & _ & _ & _ & Hdone).
  destruct (Hdone Hret) as (yaml & ckpt & Hy & Hk & Hcalls & Hout & _).
  vm_compute in Hy, Hk. injection Hy as <-. injection Hk as <-.
  split; [exact Hcalls | exact Hout].
Defined.

Lemma export_output_reads_back_witness :
  result (export "model" "out.pt" trained_disk) = Returned () ∧
  read_file "out.pt" (disk (export "model" "out.pt" trained_disk))
  = Some (Blob (Scripted (LoadedModel "model/checkpoints/last.ckpt" "step=7"
                            (MergeWith Structured "lr: 2")))).
Proof.
  assert (Hret : result (export "model" "out.pt" trained_disk) = Returned ())
    by (vm_compute; reflexivity).
  split; [exact Hret|].
  destruct (export_output_reads_back "model" "out.pt" trained_disk Hret)
    as (yaml & ckpt & Hy & Hc & Hout).
  vm_compute in Hy, Hc. injection Hy as <-. injection Hc as <-. exact Hout.
Defined.

Lemma train_never_resumes_from_best_witness :
  LoadFromCheckpoint "model/checkpoints/last.ckpt"
    ∈ calls (train None "model" "data" 5000 None [] trained_disk) ∧
  components "model/checkpoints/last.ckpt" ≠ components (best_path "model").
Proof.
  assert (Hin : LoadFromCheckpoint "model/checkpoints/last.ckpt"
                  ∈ calls (train None "model" "data" 5000 None [] trained_disk))
    by (vm_compute; right; left).
  split; [exact Hin|].
  exact (proj1 (train_never_resumes_from_best None "model" "data" 5000 []
                  trained_disk None eq_refl) _ Hin).
Defined.

Lemma train_exits_only_without_config_witness :
  path_exists fresh_disk "nowhere" = false ∧
  result (train None "nowhere" "data" 5000 None [] fresh_disk)
  = Exited (no_directory_message "nowhere") ∧
  calls (train None "nowhere" "data" 5000 None [] fresh_disk) = [].
Proof.
  assert (Hmiss : path_exists fresh_disk "nowhere" = false)
    by (vm_compute; reflexivity).
  destruct (train_exits_only_without_config None "nowhere" "data" 5000 None []
              fresh_disk (no_directory_message "nowhere")) as [Hiff Hclean].
  assert (Hexit : result (train None "nowhere" "data" 5000 None [] fresh_disk)
                  = Exited (no_directory_message "nowhere")).
  { apply Hiff. split; [reflexivity|]. left. split; [exact Hmiss | reflexivity]. }
  split; [exact Hmiss|]. split; [exact Hexit|]. apply Hclean, Hexit.
Defined.


Lemma train_checkpoint_choice_witness :
  ∃ m resume,
    Fit m "data" 5000 "model/checkpoints" "best" "model" resume
      ∈ calls (train None "model" "data" 5000 (Some "model/checkpoints/best.ckpt")
                 [] trained_disk) ∧
    resume = None ∧
    ∃ ckpt c, m = LoadedModel "model/checkpoints/best.ckpt" ckpt c.
Proof.
  eexists _, _.
  assert (Hin : Fit (LoadedModel "model/checkpoints/best.ckpt" "step=5"
                       (MergeWithDotlist (MergeWith Structured "lr: 2") []))
                  "data" 5000 "model/checkpoints" "best" "model" None
                ∈ calls (train None "model" "data" 5000
                           (Some "model/checkpoints/best.ckpt") [] trained_disk))
    by (vm_compute; do 2 right; left).
  split; [exact Hin|].
  destruct (train_checkpoint_choice None "model" "data" 5000
              (Some "model/checkpoints/best.ckpt") [] trained_disk)
    as (_ & _ & Hfit).
  destruct (Hfit _ _ _ _ _ _ _ Hin) as (_ & _ & _ & _ & _ & Hres & ckpt & c & _ & Hm).
  split; [exact Hres|]. exists ckpt, c. exact Hm.
Defined.

Lemma train_fit_comes_last_witness :
  result (train None "model" "data" 5000 None [] trained_disk) = Returned () ∧
  ∃ e, last (calls (train None "model" "data" 5000 None [] trained_disk)) = Some e
       ∧ is_fit e = true.
Proof.
  assert (Hret : result (train None "model" "data" 5000 None [] trained_disk)
                 = Returned ()) by (vm_compute; reflexivity).
  split; [exact Hret|].
  exact (proj1 (train_fit_comes_last None "model" "data" 5000 None [] trained_disk)
           Hret).
Defined.

Lemma export_changes_only_the_output_witness :
  ["model"; "config.yaml"] ≠ components "out.pt" ∧
  disk (export "model" "out.pt" trained_disk) !! ["model"; "config.yaml"]
  = trained_disk !! ["model"; "config.yaml"].
Proof.
  assert (Hne : ["model"; "config.yaml"] ≠ components "out.pt")
    by (vm_compute; discriminate).
  split; [exact Hne|].
  exact (proj1 (export_changes_only_the_output "model" "out.pt" trained_disk) _ Hne).
Defined.

End TrainMore.
